(** * go-ipld-prime (notes fork): generated nodes, iterators, map assembler
      and the ExploreIndex selector

    Shallow embedding of
      - node.go                               (the Node / iterator contracts),
      - node/gendemo/map_K2_T2.go             (K2, T2, their iterators, the
                                               K2 map assembler),
      - traversal/selector/exploreIndex.go    (ExploreIndex, ParseExploreIndex).

    Conventions.
      - Go's [int] is [Z]; no arithmetic in these files can leave the 64-bit
        range (cursors only move from 0 up to 4).
      - A Go call either returns or panics: [Outcome].
      - A Go result list [(x, err)] is a pair whose last component is an
        [option] ([None] is a nil error).
      - Methods with a pointer receiver that mutate it return the receiver's
        new contents next to the outcome, also when they panic: what was
        written before the panic stays written. *)

From Stdlib Require Import ZArith String Ascii List Bool Lia.
From Stdlib Require Decimal DecimalString.
Import ListNotations.

Local Open Scope string_scope.
Local Open Scope Z_scope.
Local Open Scope list_scope.

(** ** Calls that may panic *)

Inductive Outcome (A : Type) : Type :=
| Returned (a : A)
| Panicked (msg : string).

Arguments Returned {A} a.
Arguments Panicked {A} msg.

Definition returned {A} (o : Outcome A) : bool :=
  match o with Returned _ => true | Panicked _ => false end.

Definition panicked {A} (o : Outcome A) : bool := negb (returned o).

(** ** Package ipld: kinds *)

Module ipld.

(** Modelled from the spec: the closed enumeration of node kinds (kind.go is
    not among the sources). *)
Inductive ReprKind : Type :=
| ReprKind_Map
| ReprKind_List
| ReprKind_Null
| ReprKind_Bool
| ReprKind_Int
| ReprKind_Float
| ReprKind_String
| ReprKind_Bytes
| ReprKind_Link.

Definition ReprKind_eqb (a b : ReprKind) : bool :=
  match a, b with
  | ReprKind_Map, ReprKind_Map
  | ReprKind_List, ReprKind_List
  | ReprKind_Null, ReprKind_Null
  | ReprKind_Bool, ReprKind_Bool
  | ReprKind_Int, ReprKind_Int
  | ReprKind_Float, ReprKind_Float
  | ReprKind_String, ReprKind_String
  | ReprKind_Bytes, ReprKind_Bytes
  | ReprKind_Link, ReprKind_Link => true
  | _, _ => false
  end.

(** Modelled from the spec: the "required kind set" carried by WrongKind; the
    singleton sets are named after their one member. *)
Definition ReprKindSet : Type := list ReprKind.

Definition ReprKindSet_JustMap : ReprKindSet := [ReprKind_Map].
Definition ReprKindSet_JustList : ReprKindSet := [ReprKind_List].
Definition ReprKindSet_JustNull : ReprKindSet := [ReprKind_Null].
Definition ReprKindSet_JustBool : ReprKindSet := [ReprKind_Bool].
Definition ReprKindSet_JustInt : ReprKindSet := [ReprKind_Int].
Definition ReprKindSet_JustFloat : ReprKindSet := [ReprKind_Float].
Definition ReprKindSet_JustString : ReprKindSet := [ReprKind_String].
Definition ReprKindSet_JustBytes : ReprKindSet := [ReprKind_Bytes].
Definition ReprKindSet_JustLink : ReprKindSet := [ReprKind_Link].

(** The scalar accessors of the Node interface (node.go, lines 136-141). *)
Inductive Accessor : Type :=
| AsBool | AsInt | AsFloat | AsString | AsBytes | AsLink.

Definition MethodName (m : Accessor) : string :=
  match m with
  | AsBool => "AsBool"
  | AsInt => "AsInt"
  | AsFloat => "AsFloat"
  | AsString => "AsString"
  | AsBytes => "AsBytes"
  | AsLink => "AsLink"
  end.

(** The kind an accessor is for, and the kind set a WrongKind error of that
    accessor has to name. *)
Definition accessor_kind (m : Accessor) : ReprKind :=
  match m with
  | AsBool => ReprKind_Bool
  | AsInt => ReprKind_Int
  | AsFloat => ReprKind_Float
  | AsString => ReprKind_String
  | AsBytes => ReprKind_Bytes
  | AsLink => ReprKind_Link
  end.

Definition appropriate_kind (m : Accessor) : ReprKindSet := [accessor_kind m].

End ipld.

(** ** Package gendemo *)

Module gendemo.
Import ipld.

(** [plainString] and [plainInt] are the package's scalar nodes. *)
Definition plainString : Type := string.
Definition plainInt : Type := Z.

(** <<type K2 struct{ u, i plainString }>> and
    <<type T2 struct{ a, b, c, d plainInt }>>. *)
Record K2 : Type := { K2_u : plainString; K2_i : plainString }.
Record T2 : Type := { T2_a : plainInt; T2_b : plainInt;
                      T2_c : plainInt; T2_d : plainInt }.

(** Values of interface type [ipld.Node] that this file hands out.  Nodes are
    immutable, so a pointer to a field of a node ([&n.u]) is represented by
    the field's contents. *)
Inductive Node : Type :=
| Node_nil
| Node_plainString (s : plainString)
| Node_plainInt (x : plainInt)
| Node_K2 (n : K2)
| Node_T2 (n : T2).

Inductive error : Type :=
| ErrWrongKind (TypeName : string) (Method : string)
               (AppropriateKind : ReprKindSet) (ActualKind : ReprKind)
| ErrIteratorOverread
| ErrRepeatedMapKey (Key : Node)
| Errorf (msg : string).

Definition is_ErrIteratorOverread (e : option error) : bool :=
  match e with Some ErrIteratorOverread => true | _ => false end.

(** *** K2 as a node (lines 21-82) *)

Definition K2_ReprKind (n : K2) : ReprKind := ReprKind_Map.

Definition K2_LookupString (n : K2) (key : string) : Node * option error :=
  if String.eqb key "u" then (Node_plainString (K2_u n), None)
  else if String.eqb key "i" then (Node_plainString (K2_i n), None)
  else (Node_nil, Some (Errorf "no such field")).

Definition K2_LookupIndex (n : K2) (idx : Z) : Node * option error :=
  (Node_nil, Some (ErrWrongKind "K2" "LookupIndex" ReprKindSet_JustList ReprKind_Map)).

Definition K2_Length (n : K2) : Z := -1.
Definition K2_IsUndefined (n : K2) : bool := false.
Definition K2_IsNull (n : K2) : bool := false.

Definition K2_AsBool (n : K2) : bool * option error :=
  (false, Some (ErrWrongKind "K2" "AsBool" ReprKindSet_JustBool ReprKind_Map)).
Definition K2_AsInt (n : K2) : Z * option error :=
  (0, Some (ErrWrongKind "K2" "AsInt" ReprKindSet_JustFloat ReprKind_Map)).
(** The float result is always the zero value here; it is kept as [Z]. *)
Definition K2_AsFloat (n : K2) : Z * option error :=
  (0, Some (ErrWrongKind "K2" "AsFloat" ReprKindSet_JustFloat ReprKind_Map)).
Definition K2_AsString (n : K2) : string * option error :=
  ("", Some (ErrWrongKind "K2" "AsString" ReprKindSet_JustString ReprKind_Map)).
Definition K2_AsBytes (n : K2) : option (list Z) * option error :=
  (None, Some (ErrWrongKind "K2" "AsBytes" ReprKindSet_JustBytes ReprKind_Map)).
Definition K2_AsLink (n : K2) : Node * option error :=
  (Node_nil, Some (ErrWrongKind "K2" "AsLink" ReprKindSet_JustLink ReprKind_Map)).

(** The error component of each scalar accessor, by accessor. *)
Definition K2_accessor_error (m : Accessor) (n : K2) : option error :=
  match m with
  | AsBool => snd (K2_AsBool n)
  | AsInt => snd (K2_AsInt n)
  | AsFloat => snd (K2_AsFloat n)
  | AsString => snd (K2_AsString n)
  | AsBytes => snd (K2_AsBytes n)
  | AsLink => snd (K2_AsLink n)
  end.

(** *** The K2 map iterator (lines 84-108) *)

Record _K2_MapIterator : Type := { K2itr_n : K2; K2itr_idx : Z }.

Definition K2_MapIterator (n : K2) : _K2_MapIterator :=
  {| K2itr_n := n; K2itr_idx := 0 |}.

(** One [Next] call: what it returns (or that it panics) and the cursor
    afterwards. *)
Definition _K2_MapIterator_Next (itr : _K2_MapIterator)
  : Outcome (Node * Node * option error) * _K2_MapIterator :=
  if K2itr_idx itr >=? 2 then
    (Returned (Node_nil, Node_nil, Some ErrIteratorOverread), itr)
  else if K2itr_idx itr =? 0 then
    (Returned (Node_plainString "u", Node_plainString (K2_u (K2itr_n itr)), None),
     {| K2itr_n := K2itr_n itr; K2itr_idx := K2itr_idx itr + 1 |})
  else if K2itr_idx itr =? 1 then
    (Returned (Node_plainString "i", Node_plainString (K2_i (K2itr_n itr)), None),
     {| K2itr_n := K2itr_n itr; K2itr_idx := K2itr_idx itr + 1 |})
  else
    (Panicked "unreachable", itr).

Definition _K2_MapIterator_Done (itr : _K2_MapIterator) : bool :=
  K2itr_idx itr >=? 2.

(** *** The K2 map assembler (lines 110-208) *)

Inductive maState : Type :=
| maState_initial
| maState_midKey
| maState_expectValue
| maState_midValue
| maState_finished.

Definition maState_eqb (a b : maState) : bool :=
  match a, b with
  | maState_initial, maState_initial
  | maState_midKey, maState_midKey
  | maState_expectValue, maState_expectValue
  | maState_midValue, maState_midValue
  | maState_finished, maState_finished => true
  | _, _ => false
  end.

(** [w] is a pointer to the node under construction: [None] is nil, [Some n]
    the node it points to, which the assembler owns. *)
Record _K2__Assembler : Type := {
  w : option K2;
  state : maState;
  isset_u : bool;
  isset_i : bool
}.

Definition set_state (ma : _K2__Assembler) (st : maState) : _K2__Assembler :=
  {| w := w ma; state := st; isset_u := isset_u ma; isset_i := isset_i ma |}.

(** Values of interface type [ipld.NodeAssembler]: no path of this file gets
    as far as returning a child assembler, nil is the only one. *)
Inductive NodeAssembler : Type :=
| NodeAssembler_nil.

Definition _K2__Assembler_AssignNode (ta : _K2__Assembler) (v : Node)
  : Outcome (option error) * _K2__Assembler :=
  match v with
  | Node_K2 v2 =>
      match w ta with
      | Some _ =>
          (Returned None,
           {| w := Some v2; state := state ta;
              isset_u := isset_u ta; isset_i := isset_i ta |})
      | None => (Panicked "invalid memory address or nil pointer dereference", ta)
      end
  | _ => (Panicked "todo implement generic copy and use it here", ta)
  end.

Definition _K2__Assembler_AssembleEntry (ma : _K2__Assembler) (k : string)
  : Outcome (NodeAssembler * option error) * _K2__Assembler :=
  if negb (maState_eqb (state ma) maState_initial) then
    (Panicked "misuse", ma)
  else
    let ma := set_state ma maState_midValue in
    if String.eqb k "u" then
      if isset_u ma then
        (Returned (NodeAssembler_nil,
                   Some (ErrRepeatedMapKey (Node_plainString "u"))), ma)
      else (Panicked "todo", ma)
    else if String.eqb k "i" then
      (Panicked "todo", ma)
    else
      (Panicked "invalid field key", ma).

Definition _K2__Assembler_AssembleKey (ma : _K2__Assembler)
  : Outcome NodeAssembler * _K2__Assembler :=
  if negb (maState_eqb (state ma) maState_initial) then
    (Panicked "misuse", ma)
  else
    (Panicked "todo", set_state ma maState_midKey).

Definition _K2__Assembler_AssembleValue (ma : _K2__Assembler)
  : Outcome NodeAssembler * _K2__Assembler :=
  if negb (maState_eqb (state ma) maState_expectValue) then
    (Panicked "misuse", ma)
  else
    (Panicked "todo", set_state ma maState_midValue).

Definition _K2__Assembler_Finish (ma : _K2__Assembler)
  : Outcome (option error) * _K2__Assembler :=
  if negb (maState_eqb (state ma) maState_initial) then
    (Panicked "misuse", ma)
  else
    (Returned None, set_state ma maState_finished).

(** *** T2 as a node (lines 210-275) *)

Definition T2_ReprKind (n : T2) : ReprKind := ReprKind_Map.

Definition T2_LookupString (n : T2) (key : string) : Node * option error :=
  if String.eqb key "a" then (Node_plainInt (T2_a n), None)
  else if String.eqb key "b" then (Node_plainInt (T2_b n), None)
  else if String.eqb key "c" then (Node_plainInt (T2_c n), None)
  else if String.eqb key "d" then (Node_plainInt (T2_d n), None)
  else (Node_nil, Some (Errorf "no such field")).

Definition T2_LookupIndex (n : T2) (idx : Z) : Node * option error :=
  (Node_nil, Some (ErrWrongKind "T2" "LookupIndex" ReprKindSet_JustList ReprKind_Map)).

Definition T2_Length (n : T2) : Z := -1.
Definition T2_IsUndefined (n : T2) : bool := false.
Definition T2_IsNull (n : T2) : bool := false.

Definition T2_AsBool (n : T2) : bool * option error :=
  (false, Some (ErrWrongKind "T2" "AsBool" ReprKindSet_JustBool ReprKind_Map)).
Definition T2_AsInt (n : T2) : Z * option error :=
  (0, Some (ErrWrongKind "T2" "AsInt" ReprKindSet_JustFloat ReprKind_Map)).
Definition T2_AsFloat (n : T2) : Z * option error :=
  (0, Some (ErrWrongKind "T2" "AsFloat" ReprKindSet_JustFloat ReprKind_Map)).
Definition T2_AsString (n : T2) : string * option error :=
  ("", Some (ErrWrongKind "T2" "AsString" ReprKindSet_JustString ReprKind_Map)).
Definition T2_AsBytes (n : T2) : option (list Z) * option error :=
  (None, Some (ErrWrongKind "T2" "AsBytes" ReprKindSet_JustBytes ReprKind_Map)).
Definition T2_AsLink (n : T2) : Node * option error :=
  (Node_nil, Some (ErrWrongKind "T2" "AsLink" ReprKindSet_JustLink ReprKind_Map)).

Definition T2_accessor_error (m : Accessor) (n : T2) : option error :=
  match m with
  | AsBool => snd (T2_AsBool n)
  | AsInt => snd (T2_AsInt n)
  | AsFloat => snd (T2_AsFloat n)
  | AsString => snd (T2_AsString n)
  | AsBytes => snd (T2_AsBytes n)
  | AsLink => snd (T2_AsLink n)
  end.

(** *** The T2 map iterator (lines 277-307) *)

Record _T2_MapIterator : Type := { T2itr_n : T2; T2itr_idx : Z }.

Definition T2_MapIterator (n : T2) : _T2_MapIterator :=
  {| T2itr_n := n; T2itr_idx := 0 |}.

Definition T2itr_advance (itr : _T2_MapIterator) : _T2_MapIterator :=
  {| T2itr_n := T2itr_n itr; T2itr_idx := T2itr_idx itr + 1 |}.

Definition _T2_MapIterator_Next (itr : _T2_MapIterator)
  : Outcome (Node * Node * option error) * _T2_MapIterator :=
  if T2itr_idx itr >=? 4 then
    (Returned (Node_nil, Node_nil, Some ErrIteratorOverread), itr)
  else if T2itr_idx itr =? 0 then
    (Returned (Node_plainString "a", Node_plainInt (T2_a (T2itr_n itr)), None),
     T2itr_advance itr)
  else if T2itr_idx itr =? 1 then
    (Returned (Node_plainString "b", Node_plainInt (T2_b (T2itr_n itr)), None),
     T2itr_advance itr)
  else if T2itr_idx itr =? 2 then
    (Returned (Node_plainString "c", Node_plainInt (T2_c (T2itr_n itr)), None),
     T2itr_advance itr)
  else if T2itr_idx itr =? 3 then
    (Returned (Node_plainString "d", Node_plainInt (T2_d (T2itr_n itr)), None),
     T2itr_advance itr)
  else
    (Panicked "unreachable", itr).

Definition _T2_MapIterator_Done (itr : _T2_MapIterator) : bool :=
  T2itr_idx itr >=? 4.

(** *** Driving an iterator

    A map iterator as the [ipld.MapIterator] interface sees it: a cursor type
    with [Next] and [Done].  K2's and T2's iterators are its two instances
    here. *)

Class MapIterator (I : Type) : Type := {
  Next : I -> Outcome (Node * Node * option error) * I;
  Done : I -> bool
}.

#[export] Instance K2_iterator : MapIterator _K2_MapIterator :=
  {| Next := _K2_MapIterator_Next; Done := _K2_MapIterator_Done |}.

#[export] Instance T2_iterator : MapIterator _T2_MapIterator :=
  {| Next := _T2_MapIterator_Next; Done := _T2_MapIterator_Done |}.

(** What a caller observes of one [Next] call. *)
Inductive Observed : Type :=
| Entry (k v : Node)
| Errored (k v : Node) (e : error)
| Panic (msg : string).

Definition observe (o : Outcome (Node * Node * option error)) : Observed :=
  match o with
  | Returned (k, v, None) => Entry k v
  | Returned (k, v, Some e) => Errored k v e
  | Panicked msg => Panic msg
  end.

Definition is_Entry (o : Observed) : bool :=
  match o with Entry _ _ => true | _ => false end.

(** [calls k itr]: the observations of [k] consecutive [Next] calls on the
    cursor [itr], oldest first, and the cursor afterwards. *)
Fixpoint calls {I} `{MapIterator I} (k : nat) (itr : I) : list Observed * I :=
  match k with
  | O => ([], itr)
  | S k' =>
      let '(o, itr1) := Next itr in
      let '(os, itr2) := calls k' itr1 in
      (observe o :: os, itr2)
  end.

(** Number of [Next] calls, among the first [k], that yielded an entry. *)
Definition yielded {I} `{MapIterator I} (k : nat) (itr : I) : nat :=
  List.length (filter is_Entry (fst (calls k itr))).

(** Two cursors used in turn by one caller: [sched] says, call by call, which
    of the two is advanced ([true] the first one).  The result is what each
    cursor yielded, in order, and the two cursors afterwards. *)
Fixpoint interleave {I J} `{MapIterator I} `{MapIterator J}
    (sched : list bool) (it1 : I) (it2 : J)
  : (list Observed * list Observed) * (I * J) :=
  match sched with
  | [] => (([], []), (it1, it2))
  | true :: rest =>
      let '(o, it1') := Next it1 in
      let '((os1, os2), its) := interleave rest it1' it2 in
      ((observe o :: os1, os2), its)
  | false :: rest =>
      let '(o, it2') := Next it2 in
      let '((os1, os2), its) := interleave rest it1 it2' in
      ((os1, observe o :: os2), its)
  end.

(** *** Values the statements below refer to *)

(** What a [Next] call on an exhausted cursor is observed to do. *)
Definition overread : Observed := Errored Node_nil Node_nil ErrIteratorOverread.

(** What a fresh iterator over a K2 (a T2) yields, in the order of the struct
    declaration. *)
Definition K2_entries (n : K2) : list Observed :=
  [ Entry (Node_plainString "u") (Node_plainString (K2_u n));
    Entry (Node_plainString "i") (Node_plainString (K2_i n)) ].

Definition T2_entries (n : T2) : list Observed :=
  [ Entry (Node_plainString "a") (Node_plainInt (T2_a n));
    Entry (Node_plainString "b") (Node_plainInt (T2_b n));
    Entry (Node_plainString "c") (Node_plainInt (T2_c n));
    Entry (Node_plainString "d") (Node_plainInt (T2_d n)) ].

(** An assembler with a value sub-assembler open. *)
Definition mid_value : _K2__Assembler :=
  {| w := Some {| K2_u := "x"; K2_i := "" |};
     state := maState_midValue; isset_u := true; isset_i := false |}.

End gendemo.

(** ** Package selector *)

Module selector.
Import ipld.

(** Modelled from the spec: PathSegment, "a two-variant segment type (string
    key | integer index)", with its string-as-index conversion, which fails
    explicitly when the string is not a representable integer (the package's
    pathSegment file is not among the sources).  The conversion is Go's
    decimal parse: an optional sign, then one or more decimal digits, within
    the range of a 64-bit int. *)
Inductive PathSegment : Type :=
| PathSegmentString (S : string)
| PathSegmentInt (I : Z).

(** Modelled from the spec: the decimal digits of the string-as-index
    conversion. *)
Definition digit_of (c : ascii) : option Z :=
  let n := Z.of_N (N_of_ascii c) in
  if (48 <=? n) && (n <=? 57) then Some (n - 48) else None.

Fixpoint digits_value (s : string) (acc : Z) : option Z :=
  match s with
  | EmptyString => Some acc
  | String c rest =>
      match digit_of c with
      | Some d => digits_value rest (10 * acc + d)
      | None => None
      end
  end.

Definition maxInt : Z := 2 ^ 63 - 1.
Definition minInt : Z := - 2 ^ 63.

Section Selectors.

(** Errors are values of Go's [error] interface; the two ways this package
    makes one are [fmt.Errorf] with a constant message and a failed decimal
    parse. *)
Variable error : Type.
Variable fmt_Errorf : string -> error.
Variable strconv_NumError : string -> string -> error.

(** Modelled from the spec: the string-as-index conversion, with its explicit
    failure on a string that is not a representable integer. *)
Definition Atoi (s : string) : Z * option error :=
  let '(neg, body) :=
    match s with
    | String "-"%char rest => (true, rest)
    | String "+"%char rest => (false, rest)
    | _ => (false, s)
    end in
  match body with
  | EmptyString => (0, Some (strconv_NumError s "invalid syntax"))
  | _ =>
      match digits_value body 0 with
      | None => (0, Some (strconv_NumError s "invalid syntax"))
      | Some v =>
          let x := if neg then - v else v in
          if x <? minInt then (minInt, Some (strconv_NumError s "value out of range"))
          else if maxInt <? x then (maxInt, Some (strconv_NumError s "value out of range"))
          else (x, None)
      end
  end.

(** Modelled from the spec: [Index()] of a segment; an integer segment is its
    own index, a string segment is converted. *)
Definition PathSegment_Index (p : PathSegment) : Z * option error :=
  match p with
  | PathSegmentString str => Atoi str
  | PathSegmentInt idx => (idx, None)
  end.

(** Nodes are the non-nil values of the [ipld.Node] interface, whatever their
    implementation; a value of interface type is an [option Node].  The three
    methods the selector code calls are taken to return. *)
Variable Node : Type.
Variable Node_ReprKind : Node -> ReprKind.
Variable Node_TraverseField : Node -> string -> option Node * option error.
Variable Node_AsInt : Node -> Z * option error.

(** The selectors of the package other than ExploreIndex. *)
Variable OtherSelector : Type.

(** Values of interface type [Selector], and the ExploreIndex struct
    (lines 11-14). *)
Inductive Selector : Type :=
| Selector_nil
| Selector_ExploreIndex (s : ExploreIndex)
| Selector_other (s : OtherSelector)
with ExploreIndex : Type :=
| Build_ExploreIndex (next : Selector) (interest : list PathSegment).

Definition next (s : ExploreIndex) : Selector :=
  match s with Build_ExploreIndex n _ => n end.

Definition interest (s : ExploreIndex) : list PathSegment :=
  match s with Build_ExploreIndex _ i => i end.

Definition is_nil (s : Selector) : bool :=
  match s with Selector_nil => true | _ => false end.

(** The well-known keys and the package's selector parser, which
    ParseExploreIndex calls on the [next] field. *)
Variable indexKey : string.
Variable nextSelectorKey : string.
Variable ParseSelector : option Node -> Outcome (Selector * option error).

Definition nil_dereference : string :=
  "invalid memory address or nil pointer dereference".

Definition index_out_of_range : string :=
  "index out of range [0] with length 0".

Definition ExploreIndex_Interests (s : ExploreIndex) : list PathSegment :=
  interest s.

(** Lines 23-33.  [p.Index()] is evaluated before [s.interest[0]]. *)
Definition ExploreIndex_Explore (s : ExploreIndex) (n : option Node)
    (p : PathSegment) : Outcome Selector :=
  match n with
  | None => Panicked nil_dereference
  | Some n =>
      if negb (ReprKind_eqb (Node_ReprKind n) ReprKind_List) then
        Returned Selector_nil
      else
        let '(expectedIndex, expectedErr) := PathSegment_Index p in
        match interest s with
        | [] => Panicked index_out_of_range
        | seg :: _ =>
            let '(actualIndex, actualErr) := PathSegment_Index seg in
            if match expectedErr with Some _ => true | None => false end
               || match actualErr with Some _ => true | None => false end
               || negb (expectedIndex =? actualIndex)
            then Returned Selector_nil
            else Returned (next s)
        end
  end.

(** Lines 36-38. *)
Definition ExploreIndex_Decide (s : ExploreIndex) (n : option Node) : bool :=
  false.

(** Lines 42-63. *)
Definition ParseExploreIndex (n : option Node)
  : Outcome (Selector * option error) :=
  match n with
  | None => Panicked nil_dereference
  | Some n =>
      if negb (ReprKind_eqb (Node_ReprKind n) ReprKind_Map) then
        Returned (Selector_nil,
          Some (fmt_Errorf "selector spec parse rejected: selector body must be a map"))
      else
        match Node_TraverseField n indexKey with
        | (_, Some _) =>
            Returned (Selector_nil,
              Some (fmt_Errorf "selector spec parse rejected: index field must be present in ExploreIndex selector"))
        | (None, None) => Panicked nil_dereference
        | (Some indexNode, None) =>
            match Node_AsInt indexNode with
            | (_, Some _) =>
                Returned (Selector_nil,
                  Some (fmt_Errorf "selector spec parse rejected: index field must be a number in ExploreIndex selector"))
            | (indexValue, None) =>
                match Node_TraverseField n nextSelectorKey with
                | (_, Some _) =>
                    Returned (Selector_nil,
                      Some (fmt_Errorf "selector spec parse rejected: next field must be present in ExploreIndex selector"))
                | (next, None) =>
                    match ParseSelector next with
                    | Panicked msg => Panicked msg
                    | Returned (_, Some err) => Returned (Selector_nil, Some err)
                    | Returned (selector, None) =>
                        Returned
                          (Selector_ExploreIndex
                             (Build_ExploreIndex selector [PathSegmentInt indexValue]),
                           None)
                    end
                end
            end
        end
  end.

(** Why ParseExploreIndex turns a node down, and the error it then returns:
    the five causes, in the order the code checks them. *)
Inductive Rejected (n : Node) : error -> Prop :=
| Rejected_not_a_map :
    Node_ReprKind n <> ReprKind_Map ->
    Rejected n
      (fmt_Errorf "selector spec parse rejected: selector body must be a map")
| Rejected_index_missing (x : option Node) (e : error) :
    Node_ReprKind n = ReprKind_Map ->
    Node_TraverseField n indexKey = (x, Some e) ->
    Rejected n
      (fmt_Errorf "selector spec parse rejected: index field must be present in ExploreIndex selector")
| Rejected_index_not_an_int (indexNode : Node) (v : Z) (e : error) :
    Node_ReprKind n = ReprKind_Map ->
    Node_TraverseField n indexKey = (Some indexNode, None) ->
    Node_AsInt indexNode = (v, Some e) ->
    Rejected n
      (fmt_Errorf "selector spec parse rejected: index field must be a number in ExploreIndex selector")
| Rejected_next_missing (indexNode : Node) (v : Z) (x : option Node) (e : error) :
    Node_ReprKind n = ReprKind_Map ->
    Node_TraverseField n indexKey = (Some indexNode, None) ->
    Node_AsInt indexNode = (v, None) ->
    Node_TraverseField n nextSelectorKey = (x, Some e) ->
    Rejected n
      (fmt_Errorf "selector spec parse rejected: next field must be present in ExploreIndex selector")
| Rejected_next_malformed (indexNode : Node) (v : Z) (nextNode : option Node)
    (s : Selector) (inner : error) :
    Node_ReprKind n = ReprKind_Map ->
    Node_TraverseField n indexKey = (Some indexNode, None) ->
    Node_AsInt indexNode = (v, None) ->
    Node_TraverseField n nextSelectorKey = (nextNode, None) ->
    ParseSelector nextNode = Returned (s, Some inner) ->
    Rejected n inner.

End Selectors.

Arguments Selector_nil {OtherSelector}.
Arguments Selector_ExploreIndex {OtherSelector} s.
Arguments Selector_other {OtherSelector} s.
Arguments Build_ExploreIndex {OtherSelector} next interest.
Arguments next {OtherSelector} s.
Arguments interest {OtherSelector} s.
Arguments is_nil {OtherSelector} s.
Arguments PathSegment_Index {error} strconv_NumError p.
Arguments Atoi {error} strconv_NumError s.

End selector.

(** ** Sample nodes for the selector code *)

(** A small tree-shaped node implementation and a one-case selector parser,
    to run the selector code on. *)
Module selector_sample.
Import ipld selector.

#[warnings="-register-all"]
Inductive SNode : Type :=
| SInt (x : Z)
| SString (s : string)
| SList (elems : list SNode)
| SMap (fields : list (string * SNode)).

Definition SNode_ReprKind (n : SNode) : ReprKind :=
  match n with
  | SInt _ => ReprKind_Int
  | SString _ => ReprKind_String
  | SList _ => ReprKind_List
  | SMap _ => ReprKind_Map
  end.

Fixpoint field (key : string) (fields : list (string * SNode)) : option SNode :=
  match fields with
  | [] => None
  | (k, v) :: rest => if String.eqb k key then Some v else field key rest
  end.

Definition SNode_TraverseField (n : SNode) (key : string)
  : option SNode * option string :=
  match n with
  | SMap fields =>
      match field key fields with
      | Some v => (Some v, None)
      | None => (None, Some "no such field")
      end
  | _ => (None, Some "not a map")
  end.

Definition SNode_AsInt (n : SNode) : Z * option string :=
  match n with
  | SInt x => (x, None)
  | _ => (0, Some "not an int")
  end.

Definition NumError (num msg : string) : string := msg.

(** The only other selector is a matcher, written as any map. *)
Definition ParseSelector (n : option SNode)
  : Outcome (Selector unit * option string) :=
  match n with
  | None => Panicked nil_dereference
  | Some (SMap _) => Returned (Selector_other tt, None)
  | Some _ =>
      Returned (Selector_nil,
                Some "selector spec parse rejected: selector is a keyed union and thus must be a map")
  end.

Definition Parse : option SNode -> Outcome (Selector unit * option string) :=
  ParseExploreIndex string (fun msg => msg) SNode SNode_ReprKind
    SNode_TraverseField SNode_AsInt unit "index" "next" ParseSelector.

Definition Explore
  : ExploreIndex unit -> option SNode -> PathSegment -> Outcome (Selector unit) :=
  ExploreIndex_Explore string NumError SNode SNode_ReprKind unit.

Definition matcher_spec : SNode := SMap [].

Definition spec_index_2 : SNode :=
  SMap [("index", SInt 2); ("next", matcher_spec)].

Definition at_index_2 : ExploreIndex unit :=
  Build_ExploreIndex (Selector_other tt) [PathSegmentInt 2].

End selector_sample.

(** * Properties *)

(** ** Kinds *)

Module ipld_facts.
Import ipld.

Lemma ReprKind_eqb_spec (a b : ReprKind) : reflect (a = b) (ReprKind_eqb a b).
Proof. destruct a, b; simpl; constructor; congruence. Qed.

Lemma ReprKind_eqb_refl (a : ReprKind) : ReprKind_eqb a a = true.
Proof. now destruct a. Qed.

Lemma ReprKind_eqb_neq (a b : ReprKind) : a <> b -> ReprKind_eqb a b = false.
Proof. intros H. destruct (ReprKind_eqb_spec a b); congruence. Qed.

End ipld_facts.

(** ** Generated nodes: iteration *)

Module gendemo_iteration.
Import ipld gendemo.

(** *** Exhausted cursors *)

Lemma K2_Next_exhausted (itr : _K2_MapIterator) :
  _K2_MapIterator_Done itr = true ->
  _K2_MapIterator_Next itr
  = (Returned (Node_nil, Node_nil, Some ErrIteratorOverread), itr).
Proof.
  unfold _K2_MapIterator_Done, _K2_MapIterator_Next.
  intros H. now rewrite H.
Qed.

Lemma T2_Next_exhausted (itr : _T2_MapIterator) :
  _T2_MapIterator_Done itr = true ->
  _T2_MapIterator_Next itr
  = (Returned (Node_nil, Node_nil, Some ErrIteratorOverread), itr).
Proof.
  unfold _T2_MapIterator_Done, _T2_MapIterator_Next.
  intros H. now rewrite H.
Qed.

(** A cursor on which [Next] fails with Overread without moving keeps doing
    so, however often it is called. *)
Lemma calls_stuck {I} `{MapIterator I} (itr : I) (m : nat) :
  Next itr = (Returned (Node_nil, Node_nil, Some ErrIteratorOverread), itr) ->
  calls m itr = (repeat overread m, itr).
Proof.
  intros Hn. induction m as [| m IH]; simpl.
  - reflexivity.
  - rewrite Hn, IH. reflexivity.
Qed.

Lemma no_entry_in_overreads (m : nat) : filter is_Entry (repeat overread m) = [].
Proof. induction m; simpl; auto. Qed.

(** *** Calls compose *)

Lemma calls_add {I} `{MapIterator I} (a b : nat) (itr : I) :
  calls (a + b) itr
  = (fst (calls a itr) ++ fst (calls b (snd (calls a itr))),
     snd (calls b (snd (calls a itr)))).
Proof.
  revert itr. induction a as [| a IH]; intros itr; simpl.
  - now destruct (calls b itr).
  - destruct (Next itr) as [o itr1]. rewrite IH.
    destruct (calls a itr1) as [os itr2]; simpl.
    reflexivity.
Qed.

(** The j-th observation does not depend on how many calls follow it. *)
Lemma calls_nth_stable {I} `{MapIterator I} (m m' j : nat) (itr : I) (o o' : Observed) :
  nth_error (fst (calls m itr)) j = Some o ->
  nth_error (fst (calls m' itr)) j = Some o' ->
  o = o'.
Proof.
  revert m' j itr. induction m as [| m IH]; intros m' j itr; simpl.
  - destruct j; discriminate.
  - destruct m' as [| m']; simpl; [destruct j; discriminate |].
    destruct (Next itr) as [o1 itr1].
    specialize (IH m' (pred j) itr1).
    destruct (calls m itr1) as [os ?], (calls m' itr1) as [os' ?]; simpl in *.
    destruct j as [| j]; simpl in *.
    + congruence.
    + exact IH.
Qed.

(** Each of two cursors advanced in turn sees what it would see alone. *)
Lemma interleave_independent {I J} `{MapIterator I} `{MapIterator J}
    (sched : list bool) (it1 : I) (it2 : J) :
  fst (interleave sched it1 it2)
  = (fst (calls (List.length (filter (fun b => b) sched)) it1),
     fst (calls (List.length (filter negb sched)) it2)).
Proof.
  revert it1 it2. induction sched as [| [|] rest IH]; intros it1 it2; simpl.
  - reflexivity.
  - destruct (Next it1) as [o it1']. specialize (IH it1' it2).
    destruct (interleave rest it1' it2) as [[os1 os2] its]; simpl in *.
    destruct (calls _ it1') as [cs ?]; simpl in *.
    congruence.
  - destruct (Next it2) as [o it2']. specialize (IH it1 it2').
    destruct (interleave rest it1 it2') as [[os1 os2] its]; simpl in *.
    destruct (calls _ it2') as [cs ?]; simpl in *.
    congruence.
Qed.

Lemma interleave_same_node {I} `{MapIterator I} (sched : list bool) (itr : I)
    (j : nat) (a b : Observed) :
  nth_error (fst (fst (interleave sched itr itr))) j = Some a ->
  nth_error (snd (fst (interleave sched itr itr))) j = Some b ->
  a = b.
Proof.
  rewrite interleave_independent; simpl. apply calls_nth_stable.
Qed.

(** *** Fresh cursors *)

Lemma K2_fresh_calls (n : K2) (m : nat) :
  calls (2 + m) (K2_MapIterator n)
  = (K2_entries n ++ repeat overread m, {| K2itr_n := n; K2itr_idx := 2 |}).
Proof.
  rewrite calls_add. simpl.
  rewrite (calls_stuck (I := _K2_MapIterator)); [reflexivity |].
  now apply K2_Next_exhausted.
Qed.

Lemma T2_fresh_calls (n : T2) (m : nat) :
  calls (4 + m) (T2_MapIterator n)
  = (T2_entries n ++ repeat overread m, {| T2itr_n := n; T2itr_idx := 4 |}).
Proof.
  rewrite calls_add. simpl.
  rewrite (calls_stuck (I := _T2_MapIterator)); [reflexivity |].
  now apply T2_Next_exhausted.
Qed.

Lemma K2_yielded (n : K2) (m : nat) :
  yielded m (K2_MapIterator n) = Nat.min m 2.
Proof.
  destruct m as [| [| m]]; try reflexivity.
  unfold yielded. change (S (S m)) with (2 + m)%nat.
  rewrite K2_fresh_calls. simpl. rewrite no_entry_in_overreads.
  destruct m; reflexivity.
Qed.

Lemma T2_yielded (n : T2) (m : nat) :
  yielded m (T2_MapIterator n) = Nat.min m 4.
Proof.
  destruct m as [| [| [| [| m]]]]; try reflexivity.
  unfold yielded. change (S (S (S (S m)))) with (4 + m)%nat.
  rewrite T2_fresh_calls. simpl. rewrite no_entry_in_overreads.
  destruct m; reflexivity.
Qed.

End gendemo_iteration.

(** ** Generated nodes: the claims on iteration and accessors *)

Module gendemo_claims.
Import ipld gendemo gendemo_iteration.

(** C1.  K2 and T2 are map nodes whose [Length()] is -1, yet a fresh iterator
    over a K2 yields exactly two entries (four for a T2) however often [Next]
    is called, and the call after the last entry reports Overread: the number
    of successful [Next] calls is not [Length()]. *)
Theorem Length_is_not_the_entry_count (n : K2) (t : T2) :
  (K2_ReprKind n = ReprKind_Map /\ K2_Length n = -1
   /\ (forall m, yielded m (K2_MapIterator n) = Nat.min m 2)
   /\ fst (calls 3 (K2_MapIterator n)) = K2_entries n ++ [overread])
  /\
  (T2_ReprKind t = ReprKind_Map /\ T2_Length t = -1
   /\ (forall m, yielded m (T2_MapIterator t) = Nat.min m 4)
   /\ fst (calls 5 (T2_MapIterator t)) = T2_entries t ++ [overread]).
Proof.
  repeat split; try reflexivity.
  - apply K2_yielded.
  - apply T2_yielded.
Qed.

(** C2.  [AsInt] on a K2 or a T2 fails with a WrongKind error whose actual
    kind is map but whose required kind set is the one of floats, not the one
    of ints; the five other scalar accessors name their own kind. *)
Theorem AsInt_requires_float (n : K2) (t : T2) :
  K2_AsInt n
  = (0, Some (ErrWrongKind "K2" "AsInt" ReprKindSet_JustFloat ReprKind_Map))
  /\ T2_AsInt t
     = (0, Some (ErrWrongKind "T2" "AsInt" ReprKindSet_JustFloat ReprKind_Map))
  /\ ReprKindSet_JustFloat <> appropriate_kind AsInt
  /\ K2_accessor_error AsInt n
     <> Some (ErrWrongKind "K2" (MethodName AsInt) (appropriate_kind AsInt)
                (K2_ReprKind n))
  /\ T2_accessor_error AsInt t
     <> Some (ErrWrongKind "T2" (MethodName AsInt) (appropriate_kind AsInt)
                (T2_ReprKind t))
  /\ (forall m, m <> AsInt ->
        K2_accessor_error m n
        = Some (ErrWrongKind "K2" (MethodName m) (appropriate_kind m)
                  (K2_ReprKind n))
        /\ T2_accessor_error m t
           = Some (ErrWrongKind "T2" (MethodName m) (appropriate_kind m)
                     (T2_ReprKind t))).
Proof.
  repeat split; try reflexivity; try discriminate.
  all: destruct m; try reflexivity; congruence.
Qed.

(** C8.  Two iterators created from the same K2 (the same T2) and advanced in
    any interleaving yield the same j-th key and value, for every j; the
    order is that of the struct declaration: "u", "i" for K2 and "a", "b",
    "c", "d" for T2. *)
Theorem iteration_order_is_stable (n : K2) (t : T2) (sched : list bool)
    (j : nat) (a b c d : Observed) :
  nth_error (fst (fst (interleave sched (K2_MapIterator n) (K2_MapIterator n)))) j
  = Some a ->
  nth_error (snd (fst (interleave sched (K2_MapIterator n) (K2_MapIterator n)))) j
  = Some b ->
  nth_error (fst (fst (interleave sched (T2_MapIterator t) (T2_MapIterator t)))) j
  = Some c ->
  nth_error (snd (fst (interleave sched (T2_MapIterator t) (T2_MapIterator t)))) j
  = Some d ->
  a = b /\ c = d
  /\ fst (calls 2 (K2_MapIterator n)) = K2_entries n
  /\ fst (calls 4 (T2_MapIterator t)) = T2_entries t.
Proof.
  intros Ha Hb Hc Hd. repeat split.
  - exact (interleave_same_node sched _ j a b Ha Hb).
  - exact (interleave_same_node sched _ j c d Hc Hd).
Qed.

Lemma iteration_order_is_stable_witness :
  let n := {| K2_u := "x"; K2_i := "y" |} in
  let t := {| T2_a := 1; T2_b := 2; T2_c := 3; T2_d := 4 |} in
  let sched := [true; false; false; true; true; false] in
  let a := Entry (Node_plainString "i") (Node_plainString "y") in
  let c := Entry (Node_plainString "b") (Node_plainInt 2) in
  nth_error (fst (fst (interleave sched (K2_MapIterator n) (K2_MapIterator n)))) 1
  = Some a
  /\ nth_error (fst (fst (interleave sched (T2_MapIterator t) (T2_MapIterator t)))) 1
     = Some c
  /\ (a = a /\ c = c
      /\ fst (calls 2 (K2_MapIterator n)) = K2_entries n
      /\ fst (calls 4 (T2_MapIterator t)) = T2_entries t).
Proof.
  intros n t sched a c.
  split; [reflexivity | split; [reflexivity |]].
  apply (iteration_order_is_stable n t sched 1 a a c c); reflexivity.
Defined.

(** C10.  On an exhausted K2 or T2 iterator, [Next] returns a nil key, a nil
    value and the Overread error and leaves the cursor where it was; so does
    every later call, and [Done] stays true. *)
Theorem overread_keeps_the_cursor (i2 : _K2_MapIterator) (i4 : _T2_MapIterator)
    (m : nat) :
  _K2_MapIterator_Done i2 = true ->
  _T2_MapIterator_Done i4 = true ->
  (_K2_MapIterator_Next i2
   = (Returned (Node_nil, Node_nil, Some ErrIteratorOverread), i2)
   /\ calls m i2 = (repeat overread m, i2)
   /\ _K2_MapIterator_Done (snd (calls m i2)) = true)
  /\
  (_T2_MapIterator_Next i4
   = (Returned (Node_nil, Node_nil, Some ErrIteratorOverread), i4)
   /\ calls m i4 = (repeat overread m, i4)
   /\ _T2_MapIterator_Done (snd (calls m i4)) = true).
Proof.
  intros H2 H4.
  pose proof (K2_Next_exhausted i2 H2) as N2.
  pose proof (T2_Next_exhausted i4 H4) as N4.
  pose proof (calls_stuck (I := _K2_MapIterator) i2 m N2) as C2.
  pose proof (calls_stuck (I := _T2_MapIterator) i4 m N4) as C4.
  repeat split; try assumption.
  - now rewrite C2.
  - now rewrite C4.
Qed.

Lemma overread_keeps_the_cursor_witness :
  let n := {| K2_u := "x"; K2_i := "y" |} in
  let t := {| T2_a := 1; T2_b := 2; T2_c := 3; T2_d := 4 |} in
  let i2 := snd (calls 2 (K2_MapIterator n)) in
  let i4 := {| T2itr_n := t; T2itr_idx := 7 |} in
  _K2_MapIterator_Done i2 = true /\ _T2_MapIterator_Done i4 = true
  /\ calls 3 i2 = ([overread; overread; overread], i2)
  /\ calls 3 i4 = ([overread; overread; overread], i4).
Proof.
  intros n t i2 i4.
  split; [reflexivity | split; [reflexivity |]].
  destruct (overread_keeps_the_cursor i2 i4 3 eq_refl eq_refl)
    as [[_ [C2 _]] [_ [C4 _]]].
  split; [exact C2 | exact C4].
Defined.

End gendemo_claims.

(** ** Generated nodes: the claims on the K2 map assembler *)

Module gendemo_assembler.
Import ipld gendemo.

Lemma maState_eqb_neq (a b : maState) : a <> b -> maState_eqb a b = false.
Proof. destruct a, b; simpl; congruence. Qed.

(** C3, as stated, fails: [Finish] with a value sub-assembler open does not
    return an error value (nor anything else), it panics. *)
Lemma Finish_mid_value_returns_no_error :
  state mid_value <> maState_initial
  /\ _K2__Assembler_Finish mid_value = (Panicked "misuse", mid_value)
  /\ ~ (exists (e : option error) (ma' : _K2__Assembler),
          _K2__Assembler_Finish mid_value = (Returned e, ma')).
Proof.
  split; [discriminate | split; [reflexivity |]].
  intros (e & ma' & H). discriminate H.
Qed.

(** C3, amended.  An operation of the K2 map assembler called in a state its
    sanity check does not accept ([AssembleEntry], [AssembleKey] and [Finish]
    outside the initial state, [AssembleValue] outside the expect-value
    state) panics with "misuse" and leaves the assembler as it was; in
    particular such a [Finish] returns nothing and does not reach the
    finished state. *)
Theorem misuse_panics (ma mv : _K2__Assembler) (k : string) :
  state ma <> maState_initial ->
  state mv <> maState_expectValue ->
  _K2__Assembler_AssembleEntry ma k = (Panicked "misuse", ma)
  /\ _K2__Assembler_AssembleKey ma = (Panicked "misuse", ma)
  /\ _K2__Assembler_Finish ma = (Panicked "misuse", ma)
  /\ _K2__Assembler_AssembleValue mv = (Panicked "misuse", mv).
Proof.
  intros Ha Hv.
  unfold _K2__Assembler_AssembleEntry, _K2__Assembler_AssembleKey,
    _K2__Assembler_Finish, _K2__Assembler_AssembleValue.
  rewrite (maState_eqb_neq _ _ Ha), (maState_eqb_neq _ _ Hv). simpl.
  repeat split.
Qed.

Lemma misuse_panics_witness :
  state mid_value <> maState_initial
  /\ state mid_value <> maState_expectValue
  /\ _K2__Assembler_AssembleEntry mid_value "i" = (Panicked "misuse", mid_value)
  /\ _K2__Assembler_AssembleKey mid_value = (Panicked "misuse", mid_value)
  /\ _K2__Assembler_Finish mid_value = (Panicked "misuse", mid_value)
  /\ _K2__Assembler_AssembleValue mid_value = (Panicked "misuse", mid_value).
Proof.
  split; [discriminate | split; [discriminate |]].
  apply (misuse_panics mid_value mid_value "i"); discriminate.
Defined.

(** The duplicate check on "u" as it is written: what [AssembleEntry]
    answers once [isset_u] is set. *)
Lemma repeated_key_u_is_detected (ma : _K2__Assembler) :
  state ma = maState_initial ->
  isset_u ma = true ->
  _K2__Assembler_AssembleEntry ma "u"
  = (Returned (NodeAssembler_nil,
               Some (ErrRepeatedMapKey (Node_plainString "u"))),
     set_state ma maState_midValue).
Proof.
  intros Hs Hu. unfold _K2__Assembler_AssembleEntry.
  rewrite Hs. simpl. now rewrite Hu.
Qed.

(** [Finish] from the initial state, the one legal call that returns. *)
Lemma Finish_initial (ma : _K2__Assembler) :
  state ma = maState_initial ->
  _K2__Assembler_Finish ma = (Returned None, set_state ma maState_finished).
Proof.
  intros Hs. unfold _K2__Assembler_Finish. now rewrite Hs.
Qed.

End gendemo_assembler.

(** ** Selectors *)

Module selector_facts.
Import ipld ipld_facts selector.

Section Facts.

Context {error : Type} (fmt_Errorf : string -> error)
        (strconv_NumError : string -> string -> error).
Context {Node : Type} (Node_ReprKind : Node -> ReprKind)
        (Node_TraverseField : Node -> string -> option Node * option error)
        (Node_AsInt : Node -> Z * option error).
Context {OtherSelector : Type}.
Context (indexKey nextSelectorKey : string)
        (ParseSelector : option Node -> Outcome (Selector OtherSelector * option error)).

Local Abbreviation Index := (PathSegment_Index strconv_NumError).
Local Abbreviation Explore :=
  (ExploreIndex_Explore error strconv_NumError Node Node_ReprKind OtherSelector).
Local Abbreviation Decide := (ExploreIndex_Decide Node OtherSelector).
Local Abbreviation Interests := (ExploreIndex_Interests OtherSelector).
Local Abbreviation Rejected :=
  (Rejected error fmt_Errorf Node Node_ReprKind Node_TraverseField Node_AsInt
     OtherSelector indexKey nextSelectorKey ParseSelector).
Local Abbreviation Parse :=
  (ParseExploreIndex error fmt_Errorf Node Node_ReprKind Node_TraverseField
     Node_AsInt OtherSelector indexKey nextSelectorKey ParseSelector).

Lemma Explore_not_a_list (s : ExploreIndex OtherSelector) (n : Node) (p : PathSegment) :
  Node_ReprKind n <> ReprKind_List ->
  Explore s (Some n) p = Returned Selector_nil.
Proof.
  intros H. unfold ExploreIndex_Explore.
  now rewrite (ReprKind_eqb_neq _ _ H).
Qed.

Lemma Explore_on_list (s : ExploreIndex OtherSelector) (n : Node)
    (p seg : PathSegment) (rest : list PathSegment) :
  Node_ReprKind n = ReprKind_List ->
  interest s = seg :: rest ->
  Explore s (Some n) p
  = Returned
      (match snd (Index p), snd (Index seg) with
       | None, None =>
           if fst (Index p) =? fst (Index seg) then next s else Selector_nil
       | _, _ => Selector_nil
       end).
Proof.
  intros Hk Hi. unfold ExploreIndex_Explore.
  rewrite Hk, Hi. simpl.
  destruct (Index p) as [i [e |]], (Index seg) as [j [e' |]]; simpl;
    try reflexivity.
  now destruct (i =? j).
Qed.

(** C7.  [Decide] is false for every ExploreIndex and every node, nil or not,
    whatever the selector's index: ExploreIndex never selects a node. *)
Theorem Decide_is_false (s : ExploreIndex OtherSelector) (n : option Node) :
  Decide s n = false.
Proof. reflexivity. Qed.

(** C5.  For an ExploreIndex holding a target segment, and every node and
    path segment: [Explore] returns nil when the node is not a list, when the
    segment's index does not parse, when the target's index does not parse
    and when the two indices differ; it returns the held next selector when
    the node is a list and both indices parse to the same integer.  It
    returns in every case: a failed parse is a non-match, not an error. *)
Theorem Explore_routes_on_the_index (s : ExploreIndex OtherSelector) (n : Node)
    (p seg : PathSegment) (rest : list PathSegment) :
  interest s = seg :: rest ->
  (Node_ReprKind n <> ReprKind_List ->
     Explore s (Some n) p = Returned Selector_nil)
  /\ (snd (Index p) <> None -> Explore s (Some n) p = Returned Selector_nil)
  /\ (snd (Index seg) <> None -> Explore s (Some n) p = Returned Selector_nil)
  /\ (fst (Index p) <> fst (Index seg) ->
        Explore s (Some n) p = Returned Selector_nil)
  /\ (Node_ReprKind n = ReprKind_List ->
      snd (Index p) = None -> snd (Index seg) = None ->
      fst (Index p) = fst (Index seg) ->
        Explore s (Some n) p = Returned (next s)).
Proof.
  intros Hi.
  assert (Hnil : Node_ReprKind n <> ReprKind_List ->
                 Explore s (Some n) p = Returned Selector_nil)
    by apply Explore_not_a_list.
  destruct (ReprKind_eqb_spec (Node_ReprKind n) ReprKind_List) as [Hk | Hk].
  - rewrite (Explore_on_list s n p seg rest Hk Hi).
    destruct (snd (Index p)) as [e |], (snd (Index seg)) as [e' |];
      repeat split; intros; try congruence.
    + apply Z.eqb_neq in H. now rewrite H.
    + now rewrite (proj2 (Z.eqb_eq _ _) H2).
  - rewrite (Hnil Hk). repeat split; intros; congruence.
Qed.

(** Reads off a returned rejection: the selector and the error. *)
Ltac rejected n0 :=
  let H := fresh "H" in
  let Hs := fresh "Hs" in
  let He := fresh "He" in
  intros H; injection H as Hs He; subst;
  exists n0; split; [reflexivity | split; [reflexivity |]].

(** C4.  ParseExploreIndex returns an error exactly when the node is not a
    map, its index field is missing, its index field is not an integer, its
    next field is missing, or its next field does not parse as a selector;
    the error is the message of the first such cause, for the last one the
    inner parser's own error unchanged, and the selector returned with it is
    nil. *)
Theorem ParseExploreIndex_rejects (n : option Node)
    (sel : Selector OtherSelector) (err : error) :
  Parse n = Returned (sel, Some err)
  <-> exists n0 : Node,
        n = Some n0 /\ sel = Selector_nil
        /\ Rejected n0 err.
Proof.
  unfold ParseExploreIndex. split.
  - destruct n as [n0 |]; [| discriminate].
    destruct (ReprKind_eqb_spec (Node_ReprKind n0) ReprKind_Map) as [Hk | Hk];
      simpl.
    2: { rejected n0. now apply Rejected_not_a_map. }
    destruct (Node_TraverseField n0 indexKey) as [x [e |]] eqn:Hix.
    { destruct x; rejected n0; eapply Rejected_index_missing; eassumption. }
    destruct x as [indexNode |]; [| discriminate].
    destruct (Node_AsInt indexNode) as [v [e |]] eqn:Hint.
    { rejected n0. eapply Rejected_index_not_an_int; eassumption. }
    destruct (Node_TraverseField n0 nextSelectorKey) as [nx [e |]] eqn:Hnx.
    { rejected n0. eapply Rejected_next_missing; eassumption. }
    destruct (ParseSelector nx) as [[s [e |]] | msg] eqn:Hps; try discriminate.
    rejected n0.
    eapply Rejected_next_malformed; eassumption.
  - intros (n0 & -> & -> & R).
    destruct R as [Hk | x e Hk Hix | indexNode v e Hk Hix Hint
                   | indexNode v x e Hk Hix Hint Hnx
                   | indexNode v nx s inner Hk Hix Hint Hnx Hps].
    + now rewrite (ReprKind_eqb_neq _ _ Hk).
    + rewrite Hk, Hix. now destruct x.
    + now rewrite Hk, Hix, Hint.
    + now rewrite Hk, Hix, Hint, Hnx.
    + now rewrite Hk, Hix, Hint, Hnx, Hps.
Qed.

(** C9.  A selector that ParseExploreIndex returns without error is an
    ExploreIndex whose interest list is the one integer segment holding the
    value read from the index field, next to the selector parsed from the
    next field; on it [Explore] returns for every node and segment.  The
    same selector with an empty interest list panics in [Explore] on a list
    node, at the access to its first interest. *)
Theorem parsed_selector_has_one_interest (n : option Node)
    (sel : Selector OtherSelector) (m : Node) (p : PathSegment) :
  Parse n = Returned (sel, None) ->
  Node_ReprKind m = ReprKind_List ->
  exists (n0 indexNode : Node) (nextNode : option Node)
         (nxt : Selector OtherSelector) (i : Z),
    n = Some n0
    /\ Node_TraverseField n0 indexKey = (Some indexNode, None)
    /\ Node_AsInt indexNode = (i, None)
    /\ Node_TraverseField n0 nextSelectorKey = (nextNode, None)
    /\ ParseSelector nextNode = Returned (nxt, None)
    /\ sel = Selector_ExploreIndex (Build_ExploreIndex nxt [PathSegmentInt i])
    /\ Interests (Build_ExploreIndex nxt [PathSegmentInt i]) = [PathSegmentInt i]
    /\ List.length (Interests (Build_ExploreIndex nxt [PathSegmentInt i])) = 1%nat
    /\ (forall (m' : Node) (p' : PathSegment),
          exists r, Explore (Build_ExploreIndex nxt [PathSegmentInt i]) (Some m') p'
                    = Returned r)
    /\ Explore (Build_ExploreIndex nxt []) (Some m) p = Panicked index_out_of_range.
Proof.
  unfold ParseExploreIndex. intros H Hm.
  destruct n as [n0 |]; [| discriminate].
  destruct (ReprKind_eqb (Node_ReprKind n0) ReprKind_Map); [| discriminate].
  simpl in H.
  destruct (Node_TraverseField n0 indexKey) as [[indexNode |] [e |]] eqn:Hix;
    try discriminate.
  destruct (Node_AsInt indexNode) as [i [e |]] eqn:Hint; try discriminate.
  destruct (Node_TraverseField n0 nextSelectorKey) as [nx [e |]] eqn:Hnx;
    try discriminate.
  destruct (ParseSelector nx) as [[nxt [e |]] | msg] eqn:Hps; try discriminate.
  injection H as <-.
  exists n0, indexNode, nx, nxt, i.
  repeat (split; [reflexivity || assumption |]).
  split.
  - intros m' p'.
    destruct (ReprKind_eqb_spec (Node_ReprKind m') ReprKind_List) as [Hk | Hk].
    + rewrite (Explore_on_list (Build_ExploreIndex nxt [PathSegmentInt i])
                 m' p' (PathSegmentInt i) [] Hk eq_refl).
      eauto.
    + rewrite (Explore_not_a_list _ m' p' Hk). eauto.
  - unfold ExploreIndex_Explore. rewrite Hm. simpl.
    now destruct (Index p).
Qed.

End Facts.

End selector_facts.

(** ** Selectors on the sample nodes *)

Module selector_examples.
Import ipld selector selector_sample selector_facts.

(** The table of section 8: target index 2 on a list node, then on a map. *)
Example Explore_table :
  Explore at_index_2 (Some (SList [])) (PathSegmentInt 2)
  = Returned (Selector_other tt)
  /\ Explore at_index_2 (Some (SList [])) (PathSegmentString "2")
     = Returned (Selector_other tt)
  /\ Explore at_index_2 (Some (SList [])) (PathSegmentInt 0)
     = Returned Selector_nil
  /\ Explore at_index_2 (Some (SList [])) (PathSegmentString "not-an-int")
     = Returned Selector_nil
  /\ Explore at_index_2 (Some (SMap [])) (PathSegmentInt 2)
     = Returned Selector_nil
  /\ Explore (Build_ExploreIndex (Selector_other tt) [PathSegmentString "x"])
       (Some (SList [])) (PathSegmentInt 0)
     = Returned Selector_nil.
Proof. repeat split. Qed.

(** One specification that parses, and one for each cause of rejection. *)
Example Parse_table :
  Parse (Some spec_index_2) = Returned (Selector_ExploreIndex at_index_2, None)
  /\ Parse (Some (SInt 2))
     = Returned (Selector_nil,
         Some "selector spec parse rejected: selector body must be a map")
  /\ Parse (Some (SMap [("next", matcher_spec)]))
     = Returned (Selector_nil,
         Some "selector spec parse rejected: index field must be present in ExploreIndex selector")
  /\ Parse (Some (SMap [("index", SString "x"); ("next", matcher_spec)]))
     = Returned (Selector_nil,
         Some "selector spec parse rejected: index field must be a number in ExploreIndex selector")
  /\ Parse (Some (SMap [("index", SInt 2)]))
     = Returned (Selector_nil,
         Some "selector spec parse rejected: next field must be present in ExploreIndex selector")
  /\ Parse (Some (SMap [("index", SInt 2); ("next", SInt 1)]))
     = ParseSelector (Some (SInt 1)).
Proof. repeat split. Qed.

Lemma Explore_routes_on_the_index_witness :
  interest at_index_2 = [PathSegmentInt 2]
  /\ Explore at_index_2 (Some (SList [SInt 7])) (PathSegmentString "2")
     = Returned (next at_index_2).
Proof.
  split; [reflexivity |].
  apply (proj2 (proj2 (proj2 (proj2
           (Explore_routes_on_the_index NumError SNode_ReprKind at_index_2
              (SList [SInt 7]) (PathSegmentString "2") (PathSegmentInt 2) []
              eq_refl)))));
    reflexivity.
Defined.

Lemma parsed_selector_has_one_interest_witness :
  Parse (Some spec_index_2) = Returned (Selector_ExploreIndex at_index_2, None)
  /\ SNode_ReprKind (SList []) = ReprKind_List
  /\ (forall (m : SNode) (p : PathSegment),
        exists r, Explore at_index_2 (Some m) p = Returned r).
Proof.
  split; [reflexivity | split; [reflexivity |]].
  destruct (parsed_selector_has_one_interest (fun msg => msg) NumError
              SNode_ReprKind SNode_TraverseField SNode_AsInt "index" "next"
              ParseSelector (Some spec_index_2) (Selector_ExploreIndex at_index_2)
              (SList []) (PathSegmentInt 0) eq_refl eq_refl)
    as (n0 & indexNode & nextNode & nxt & i & _ & _ & _ & _ & _ & Hsel & _ & _
        & Htotal & _).
  injection Hsel as Hn Hi. subst nxt i. exact Htotal.
Defined.

End selector_examples.

(** * Further operations of the generated nodes *)

(** ** Lookup by node and by segment *)

Module gendemo_lookup.
Import ipld gendemo.

(** Modelled from the spec: the index-as-string conversion of a path segment
    (the [ipld.PathSegment] type is not among the sources): a string segment
    is its string, an integer segment its decimal numeral. *)
Definition Itoa (z : Z) : string :=
  DecimalString.NilZero.string_of_int (Z.to_int z).

Definition PathSegment_String (seg : selector.PathSegment) : string :=
  match seg with
  | selector.PathSegmentString str => str
  | selector.PathSegmentInt idx => Itoa idx
  end.

(** Lines 44-46 and 237-239. *)
Definition K2_LookupSegment (n : K2) (seg : selector.PathSegment)
  : Node * option error :=
  K2_LookupString n (PathSegment_String seg).

Definition T2_LookupSegment (n : T2) (seg : selector.PathSegment)
  : Node * option error :=
  T2_LookupString n (PathSegment_String seg).

(** Lines 50-52 and 243-245: the list iterator of a K2 or T2 is nil. *)
Definition K2_ListIterator (n : K2) : option unit := None.
Definition T2_ListIterator (n : T2) : option unit := None.

Section Lookup.

(** [AsString] of the package's scalar nodes is defined in other files. *)
Variable plainString_AsString : plainString -> string * option error.
Variable plainInt_AsString : plainInt -> string * option error.

(** [key.AsString()] on an interface value: dispatch on the node behind it. *)
Definition Node_AsString (key : Node) : Outcome (string * option error) :=
  match key with
  | Node_nil => Panicked "invalid memory address or nil pointer dereference"
  | Node_plainString s => Returned (plainString_AsString s)
  | Node_plainInt x => Returned (plainInt_AsString x)
  | Node_K2 k => Returned (K2_AsString k)
  | Node_T2 t => Returned (T2_AsString t)
  end.

(** Lines 34-40. *)
Definition K2_Lookup (n : K2) (key : Node) : Outcome (Node * option error) :=
  match Node_AsString key with
  | Panicked msg => Panicked msg
  | Returned (_, Some err) => Returned (Node_nil, Some err)
  | Returned (ks, None) => Returned (K2_LookupString n ks)
  end.

(** Lines 227-233. *)
Definition T2_Lookup (n : T2) (key : Node) : Outcome (Node * option error) :=
  match Node_AsString key with
  | Panicked msg => Panicked msg
  | Returned (_, Some err) => Returned (Node_nil, Some err)
  | Returned (ks, None) => Returned (T2_LookupString n ks)
  end.

End Lookup.

(** The standard loop over an iterator: call [Next] until [Done], at most
    [fuel] times.  [None] when the fuel runs out first. *)
Fixpoint drain {I} `{MapIterator I} (fuel : nat) (itr : I)
  : option (list Observed * I) :=
  if Done itr then Some ([], itr)
  else
    match fuel with
    | O => None
    | S fuel' =>
        let '(o, itr1) := Next itr in
        match drain fuel' itr1 with
        | Some (os, itr2) => Some (observe o :: os, itr2)
        | None => None
        end
    end.

Definition is_Panic (o : Observed) : bool :=
  match o with Panic _ => true | _ => false end.

End gendemo_lookup.

Module gendemo_lookup_facts.
Import ipld gendemo gendemo_iteration gendemo_lookup.

Lemma K2_two_calls (n : K2) : fst (calls 2 (K2_MapIterator n)) = K2_entries n.
Proof. reflexivity. Qed.

Lemma T2_four_calls (n : T2) : fst (calls 4 (T2_MapIterator n)) = T2_entries n.
Proof. reflexivity. Qed.

Ltac key_cases key :=
  repeat match goal with
         | |- context [String.eqb key ?k] =>
             destruct (String.eqb_spec key k); [subst key |]
         end.

Lemma K2_lookup_iff (n : K2) (key : string) (v : Node) :
  In (Entry (Node_plainString key) v) (K2_entries n)
  <-> K2_LookupString n key = (v, None).
Proof.
  unfold K2_entries, K2_LookupString. split.
  - intros [H | [H | []]]; injection H as <- <-; reflexivity.
  - key_cases key; intros H; try discriminate;
      injection H as <-; simpl; auto.
Qed.

Lemma T2_lookup_iff (n : T2) (key : string) (v : Node) :
  In (Entry (Node_plainString key) v) (T2_entries n)
  <-> T2_LookupString n key = (v, None).
Proof.
  unfold T2_entries, T2_LookupString. split.
  - intros [H | [H | [H | [H | []]]]]; injection H as <- <-; reflexivity.
  - key_cases key; intros H; try discriminate;
      injection H as <-; simpl; auto 6.
Qed.

(** X1.  On a K2, [LookupString] and the iterator agree: a key is looked up
    without error, to the value [v], exactly when a fresh iterator yields the
    entry of that key with [v]; every other key gives a nil node and the
    "no such field" error. *)
Theorem K2_lookup_agrees_with_iteration (n : K2) (key : string) :
  (forall v : Node,
     In (Entry (Node_plainString key) v) (fst (calls 2 (K2_MapIterator n)))
     <-> K2_LookupString n key = (v, None))
  /\ ((exists v, K2_LookupString n key = (v, None))
      \/ K2_LookupString n key = (Node_nil, Some (Errorf "no such field"))).
Proof.
  rewrite K2_two_calls. split.
  - intros v. apply K2_lookup_iff.
  - unfold K2_LookupString. key_cases key; eauto.
Qed.

(** X2.  The same agreement on a T2, over its four fields. *)
Theorem T2_lookup_agrees_with_iteration (n : T2) (key : string) :
  (forall v : Node,
     In (Entry (Node_plainString key) v) (fst (calls 4 (T2_MapIterator n)))
     <-> T2_LookupString n key = (v, None))
  /\ ((exists v, T2_LookupString n key = (v, None))
      \/ T2_LookupString n key = (Node_nil, Some (Errorf "no such field"))).
Proof.
  rewrite T2_four_calls. split.
  - intros v. apply T2_lookup_iff.
  - unfold T2_LookupString. key_cases key; eauto.
Qed.

(** *** The loop over an iterator *)

Lemma drain_more {I} `{MapIterator I} (fuel extra : nat) (itr : I)
    (r : list Observed * I) :
  drain fuel itr = Some r -> drain (fuel + extra) itr = Some r.
Proof.
  revert itr r. induction fuel as [| fuel IH]; intros itr r; simpl.
  - destruct (Done itr) eqn:D; [| discriminate].
    intros <-. destruct extra; simpl; now rewrite D.
  - destruct (Done itr); [auto |].
    destruct (Next itr) as [o itr1].
    destruct (drain fuel itr1) as [[os itr2] |] eqn:E; [| discriminate].
    now rewrite (IH _ _ E).
Qed.

(** X3.  The loop "call [Next] until [Done]" over a fresh K2 (T2) iterator
    ends after exactly two (four) calls, each of which yields an entry: it
    collects the fields in declaration order and meets neither the Overread
    error nor a panic. *)
Theorem drain_yields_the_fields (n : K2) (t : T2) (fuel : nat) :
  (4 <= fuel)%nat ->
  drain fuel (K2_MapIterator n)
  = Some (K2_entries n, {| K2itr_n := n; K2itr_idx := 2 |})
  /\ drain fuel (T2_MapIterator t)
     = Some (T2_entries t, {| T2itr_n := t; T2itr_idx := 4 |}).
Proof.
  intros Hf. replace fuel with (4 + (fuel - 4))%nat by lia.
  split; apply drain_more; reflexivity.
Qed.

Lemma drain_yields_the_fields_witness :
  let n := {| K2_u := "x"; K2_i := "y" |} in
  let t := {| T2_a := 1; T2_b := 2; T2_c := 3; T2_d := 4 |} in
  (4 <= 9)%nat
  /\ drain 9 (K2_MapIterator n)
     = Some (K2_entries n, {| K2itr_n := n; K2itr_idx := 2 |})
  /\ drain 9 (T2_MapIterator t)
     = Some (T2_entries t, {| T2itr_n := t; T2itr_idx := 4 |}).
Proof.
  intros n t. split; [lia |].
  apply (drain_yields_the_fields n t 9). lia.
Defined.

Lemma no_panic_in_overreads (m : nat) :
  forallb (fun o => negb (is_Panic o)) (repeat overread m) = true.
Proof. induction m; simpl; auto. Qed.

Lemma calls_fst_length {I} `{MapIterator I} (k : nat) (itr : I) :
  List.length (fst (calls k itr)) = k.
Proof.
  revert itr. induction k as [| k IH]; intros itr; simpl; [reflexivity |].
  destruct (Next itr) as [o itr1]. specialize (IH itr1).
  destruct (calls k itr1); simpl in *. now rewrite IH.
Qed.

(** X4.  However many times [Next] is called on an iterator made by
    [MapIterator()], no call panics (the "unreachable" branch is not
    reached), the cursor never passes the number of fields, and [Done] is
    true exactly from the second call on for a K2 and from the fourth on for
    a T2. *)
Theorem fresh_iterator_never_panics (n : K2) (t : T2) (k : nat) :
  (forallb (fun o => negb (is_Panic o)) (fst (calls k (K2_MapIterator n))) = true
   /\ K2itr_idx (snd (calls k (K2_MapIterator n))) = Z.of_nat (Nat.min k 2)
   /\ _K2_MapIterator_Done (snd (calls k (K2_MapIterator n))) = (2 <=? k)%nat)
  /\
  (forallb (fun o => negb (is_Panic o)) (fst (calls k (T2_MapIterator t))) = true
   /\ T2itr_idx (snd (calls k (T2_MapIterator t))) = Z.of_nat (Nat.min k 4)
   /\ _T2_MapIterator_Done (snd (calls k (T2_MapIterator t))) = (4 <=? k)%nat).
Proof.
  split.
  - destruct k as [| [| k]]; [repeat split .. |].
    change (S (S k)) with (2 + k)%nat. rewrite K2_fresh_calls.
    cbn [fst snd K2itr_idx]. split; [| split].
    + rewrite forallb_app, no_panic_in_overreads. reflexivity.
    + now rewrite Nat.min_r by lia.
    + reflexivity.
  - destruct k as [| [| [| [| k]]]]; [repeat split .. |].
    change (S (S (S (S k)))) with (4 + k)%nat. rewrite T2_fresh_calls.
    cbn [fst snd T2itr_idx]. split; [| split].
    + rewrite forallb_app, no_panic_in_overreads. reflexivity.
    + now rewrite Nat.min_r by lia.
    + reflexivity.
Qed.

(** *** Lookup by a key node *)

Section LookupFacts.

Variable plainString_AsString : plainString -> string * option error.
Variable plainInt_AsString : plainInt -> string * option error.

Local Abbreviation AsString := (Node_AsString plainString_AsString plainInt_AsString).
Local Abbreviation K2Lookup := (K2_Lookup plainString_AsString plainInt_AsString).
Local Abbreviation T2Lookup := (T2_Lookup plainString_AsString plainInt_AsString).

(** X5.  [Lookup] with a key node finds a value exactly when the key's
    [AsString] succeeds with the name of a field, and the value is then the
    one the iterator yields for that field.  A key that is itself a K2 or a T2
    is refused with the key's own WrongKind error (method AsString, string
    required, map present), whatever the node looked into. *)
Theorem Lookup_goes_through_AsString (n : K2) (t : T2) (key v : Node)
    (k2 : K2) (t2 : T2) :
  (K2Lookup n key = Returned (v, None)
   <-> exists ks, AsString key = Returned (ks, None)
                  /\ In (Entry (Node_plainString ks) v)
                        (fst (calls 2 (K2_MapIterator n))))
  /\ (T2Lookup t key = Returned (v, None)
      <-> exists ks, AsString key = Returned (ks, None)
                     /\ In (Entry (Node_plainString ks) v)
                           (fst (calls 4 (T2_MapIterator t))))
  /\ K2Lookup n (Node_K2 k2)
     = Returned (Node_nil,
         Some (ErrWrongKind "K2" "AsString" ReprKindSet_JustString ReprKind_Map))
  /\ K2Lookup n (Node_T2 t2)
     = Returned (Node_nil,
         Some (ErrWrongKind "T2" "AsString" ReprKindSet_JustString ReprKind_Map))
  /\ T2Lookup t (Node_K2 k2)
     = Returned (Node_nil,
         Some (ErrWrongKind "K2" "AsString" ReprKindSet_JustString ReprKind_Map))
  /\ T2Lookup t (Node_T2 t2)
     = Returned (Node_nil,
         Some (ErrWrongKind "T2" "AsString" ReprKindSet_JustString ReprKind_Map)).
Proof.
  rewrite K2_two_calls, T2_four_calls.
  unfold K2_Lookup, T2_Lookup.
  split; [| split; [| repeat split]].
  - destruct (AsString key) as [[ks [e |]] | msg]; split;
      try discriminate.
    + intros (ks' & H & _). discriminate H.
    + intros H. injection H as H. exists ks. split; [reflexivity |].
      now apply K2_lookup_iff.
    + intros (ks' & H & Hin). injection H as <-.
      f_equal. now apply K2_lookup_iff.
    + intros (ks' & H & _). discriminate H.
  - destruct (AsString key) as [[ks [e |]] | msg]; split;
      try discriminate.
    + intros (ks' & H & _). discriminate H.
    + intros H. injection H as H. exists ks. split; [reflexivity |].
      now apply T2_lookup_iff.
    + intros (ks' & H & Hin). injection H as <-.
      f_equal. now apply T2_lookup_iff.
    + intros (ks' & H & _). discriminate H.
Qed.

End LookupFacts.

(** *** Lookup by a path segment *)

(** A decimal numeral starts with a digit or a minus sign. *)
Lemma Itoa_head (z : Z) :
  exists (c : ascii) (rest : string),
    Itoa z = String c rest
    /\ (c = "-"%char \/ selector.digit_of c <> None).
Proof.
  unfold Itoa. destruct z as [| p | p]; simpl.
  - exists "0"%char, EmptyString. split; [reflexivity | right; discriminate].
  - destruct (Pos.to_uint p); simpl; eexists; eexists;
      (split; [reflexivity | right; discriminate]).
  - eexists; eexists. split; [reflexivity | now left].
Qed.

Lemma Itoa_is_no_field (z : Z) (c : ascii) :
  c <> "-"%char -> selector.digit_of c = None ->
  String.eqb (Itoa z) (String c EmptyString) = false.
Proof.
  intros Hm Hd. apply String.eqb_neq. intros H.
  destruct (Itoa_head z) as (c' & rest & E & [-> | Hc]);
    rewrite E in H; injection H as <- _; congruence.
Qed.

(** X6.  [LookupSegment] with an integer segment finds nothing in a K2 or a
    T2, whatever the integer: the segment is looked up as its decimal
    numeral, which is the name of no field.  With a string segment it is
    [LookupString] on that string. *)
Theorem LookupSegment_by_index_finds_nothing (n : K2) (t : T2) (idx : Z)
    (str : string) :
  K2_LookupSegment n (selector.PathSegmentInt idx)
  = (Node_nil, Some (Errorf "no such field"))
  /\ T2_LookupSegment t (selector.PathSegmentInt idx)
     = (Node_nil, Some (Errorf "no such field"))
  /\ K2_LookupSegment n (selector.PathSegmentString str) = K2_LookupString n str
  /\ T2_LookupSegment t (selector.PathSegmentString str) = T2_LookupString t str.
Proof.
  unfold K2_LookupSegment, T2_LookupSegment, K2_LookupString, T2_LookupString.
  simpl PathSegment_String.
  rewrite !Itoa_is_no_field by (discriminate || reflexivity).
  repeat split.
Qed.

End gendemo_lookup_facts.

(** ** The assemblers under sequences of calls *)

Module gendemo_machine.
Import ipld gendemo.

(** Lines 136-143: the eight methods of the K2 assembler whose body is
    [panic("no")]; lines 151 and 207-208: the three whose body is
    [panic("later")]. *)
Inductive Refused : Type :=
| BeginMap | BeginList | AssignNull | AssignBool | AssignInt | AssignFloat
| AssignString | AssignBytes.

Inductive Styles : Type :=
| Style | KeyStyle | ValueStyle.

Definition _K2__Assembler_refused (m : Refused) (ma : _K2__Assembler)
  : Outcome (option error) * _K2__Assembler :=
  (Panicked "no", ma).

Definition _K2__Assembler_style (m : Styles) (ma : _K2__Assembler)
  : Outcome (option error) * _K2__Assembler :=
  (Panicked "later", ma).

(** A call on a K2 assembler. *)
Inductive Call : Type :=
| Call_refused (m : Refused)
| Call_style (m : Styles)
| Call_AssignNode (v : Node)
| Call_AssembleEntry (k : string)
| Call_AssembleKey
| Call_AssembleValue
| Call_Finish.

(** What the caller sees of a call: a panic, or the error returned (the
    child assembler returned next to it is always nil). *)
Definition step (c : Call) (ma : _K2__Assembler)
  : Outcome (option error) * _K2__Assembler :=
  match c with
  | Call_refused m => _K2__Assembler_refused m ma
  | Call_style m => _K2__Assembler_style m ma
  | Call_AssignNode v => _K2__Assembler_AssignNode ma v
  | Call_AssembleEntry k =>
      let '(o, ma') := _K2__Assembler_AssembleEntry ma k in
      (match o with
       | Returned (_, e) => Returned e
       | Panicked msg => Panicked msg
       end, ma')
  | Call_AssembleKey =>
      let '(o, ma') := _K2__Assembler_AssembleKey ma in
      (match o with
       | Returned _ => Returned None
       | Panicked msg => Panicked msg
       end, ma')
  | Call_AssembleValue =>
      let '(o, ma') := _K2__Assembler_AssembleValue ma in
      (match o with
       | Returned _ => Returned None
       | Panicked msg => Panicked msg
       end, ma')
  | Call_Finish => _K2__Assembler_Finish ma
  end.

(** A sequence of calls by a caller that recovers from panics and goes on:
    each call with what came of it, and the assembler afterwards. *)
Fixpoint run (cs : list Call) (ma : _K2__Assembler)
  : list (Call * Outcome (option error)) * _K2__Assembler :=
  match cs with
  | [] => ([], ma)
  | c :: rest =>
      let '(o, ma1) := step c ma in
      let '(tr, ma2) := run rest ma1 in
      ((c, o) :: tr, ma2)
  end.

Definition is_AssignNode (c : Call) : bool :=
  match c with Call_AssignNode _ => true | _ => false end.

Definition is_assembly (c : Call) : bool :=
  match c with
  | Call_AssembleEntry _ | Call_AssembleKey | Call_AssembleValue => true
  | _ => false
  end.


Definition Finish_returned (co : Call * Outcome (option error)) : bool :=
  match co with
  | (Call_Finish, Returned _) => true
  | _ => false
  end.

(** *** The T2 assembler (lines 309-352) *)

Record _T2__Assembler : Type := { T2asm_w : option T2 }.

(** [BeginMap] returns the assembler itself as the map assembler. *)
Definition _T2__Assembler_BeginMap (ta : _T2__Assembler) (sizeHint : Z)
  : _T2__Assembler * option error :=
  (ta, None).

Definition _T2__Assembler_AssignNode (ta : _T2__Assembler) (v : Node)
  : Outcome (option error) * _T2__Assembler :=
  match v with
  | Node_T2 v2 =>
      match T2asm_w ta with
      | Some _ => (Returned None, {| T2asm_w := Some v2 |})
      | None => (Panicked "invalid memory address or nil pointer dereference", ta)
      end
  | _ => (Panicked "later", ta)
  end.

Definition _T2__Assembler_AssembleEntry (ta : _T2__Assembler) (k : string)
  : Outcome (NodeAssembler * option error) * _T2__Assembler :=
  (Panicked "soon", ta).

Definition _T2__Assembler_AssembleKey (ta : _T2__Assembler)
  : Outcome NodeAssembler * _T2__Assembler :=
  (Panicked "soon", ta).

Definition _T2__Assembler_AssembleValue (ta : _T2__Assembler)
  : Outcome NodeAssembler * _T2__Assembler :=
  (Panicked "soon", ta).

Definition _T2__Assembler_Finish (ta : _T2__Assembler)
  : Outcome (option error) * _T2__Assembler :=
  (Panicked "soon", ta).

End gendemo_machine.

Module gendemo_machine_facts.
Import ipld gendemo gendemo_iteration gendemo_machine.

(** Opens one call on an assembler given by its four fields. *)
Ltac one_call :=
  unfold step, _K2__Assembler_refused, _K2__Assembler_style,
    _K2__Assembler_AssignNode, _K2__Assembler_AssembleEntry,
    _K2__Assembler_AssembleKey, _K2__Assembler_AssembleValue,
    _K2__Assembler_Finish, set_state;
  cbn [w state isset_u isset_i negb maState_eqb];
  repeat (match goal with
          | |- context [String.eqb ?k ?s] => destruct (String.eqb k s)
          | |- context [match ?v with Node_nil => _ | _ => _ end] => destruct v
          | |- context [match ?o with Some _ => _ | None => _ end] => destruct o
          | |- context [if ?b then _ else _] => destruct b
          end;
          cbn [w state isset_u isset_i negb maState_eqb]);
  cbn [fst snd w state isset_u isset_i negb].

Lemma step_keeps_flags (c : Call) (ma : _K2__Assembler) :
  isset_u (snd (step c ma)) = isset_u ma
  /\ isset_i (snd (step c ma)) = isset_i ma.
Proof.
  destruct ma as [w0 st u i]. destruct c, st; one_call; auto.
Qed.

Lemma step_keeps_w (c : Call) (ma : _K2__Assembler) :
  is_AssignNode c = false -> w (snd (step c ma)) = w ma.
Proof.
  destruct ma as [w0 st u i].
  destruct c, st; try discriminate; intros _; one_call; auto.
Qed.

Lemma step_keeps_nil (c : Call) (ma : _K2__Assembler) :
  w ma = None -> w (snd (step c ma)) = None.
Proof.
  destruct ma as [w0 st u i]. cbn [w]. intros ->.
  destruct c, st; one_call; auto.
Qed.

Lemma step_outside_initial (c : Call) (ma : _K2__Assembler) :
  state ma <> maState_initial ->
  state (snd (step c ma)) <> maState_initial
  /\ (is_AssignNode c = false -> panicked (fst (step c ma)) = true).
Proof.
  destruct ma as [w0 st u i]. cbn [state]. intros Hst.
  destruct c, st; try congruence; one_call; split;
    try discriminate; auto.
Qed.

Lemma step_unset_u (c : Call) (ma : _K2__Assembler) :
  isset_u ma = false -> is_assembly c = true ->
  panicked (fst (step c ma)) = true.
Proof.
  destruct ma as [w0 st u i]. cbn [isset_u]. intros ->.
  destruct c, st; try discriminate; intros _; one_call; auto.
Qed.

Lemma step_Finish_leaves_initial (ma : _K2__Assembler) (e : option error) :
  fst (step Call_Finish ma) = Returned e ->
  state (snd (step Call_Finish ma)) <> maState_initial.
Proof.
  destruct ma as [w0 st u i]. destruct st; one_call; intros _; discriminate.
Qed.

Lemma run_cons (c : Call) (rest : list Call) (ma : _K2__Assembler) :
  run (c :: rest) ma
  = ((c, fst (step c ma)) :: fst (run rest (snd (step c ma))),
     snd (run rest (snd (step c ma)))).
Proof.
  change (run (c :: rest) ma)
    with (let '(o, ma1) := step c ma in
          let '(tr, ma2) := run rest ma1 in ((c, o) :: tr, ma2)).
  destruct (step c ma) as [o ma1]. cbn [fst snd].
  now destruct (run rest ma1).
Qed.

(** X7.  No sequence of calls on a K2 assembler changes the two "is set"
    flags; the node under construction is written by [AssignNode] alone, and
    a nil target stays nil. *)
Theorem calls_keep_flags_and_target (cs : list Call) (ma : _K2__Assembler) :
  isset_u (snd (run cs ma)) = isset_u ma
  /\ isset_i (snd (run cs ma)) = isset_i ma
  /\ (w ma = None -> w (snd (run cs ma)) = None)
  /\ (forallb (fun c => negb (is_AssignNode c)) cs = true ->
      w (snd (run cs ma)) = w ma).
Proof.
  revert ma. induction cs as [| c rest IH]; intros ma.
  - simpl. auto.
  - rewrite run_cons. cbn [snd forallb].
    destruct (IH (snd (step c ma))) as (Hu & Hi & Hn & Hw).
    destruct (step_keeps_flags c ma) as [Su Si].
    repeat split.
    + congruence.
    + congruence.
    + intros H. apply Hn. now apply step_keeps_nil.
    + intros H. apply andb_prop in H as [Hc Hr].
      rewrite (Hw Hr). apply step_keeps_w.
      now destruct (is_AssignNode c).
Qed.

(** X8.  On an assembler whose field "u" is not marked as set, in particular
    a new one, no call of [AssembleEntry], [AssembleKey] or [AssembleValue]
    ever returns, in any sequence of calls: each of them panics. *)
Theorem no_assembly_call_returns (cs : list Call) (ma : _K2__Assembler) :
  isset_u ma = false ->
  forallb (fun co => implb (is_assembly (fst co)) (panicked (snd co)))
          (fst (run cs ma)) = true.
Proof.
  revert ma. induction cs as [| c rest IH]; intros ma Hu.
  - reflexivity.
  - rewrite run_cons. cbn [fst snd forallb].
    rewrite IH by (now rewrite (proj1 (step_keeps_flags c ma))).
    rewrite andb_true_r.
    destruct (is_assembly c) eqn:Hc; [| reflexivity].
    cbn [implb]. now apply step_unset_u.
Qed.

Definition new_assembler : _K2__Assembler :=
  {| w := Some {| K2_u := ""; K2_i := "" |};
     state := maState_initial; isset_u := false; isset_i := false |}.

Lemma no_assembly_call_returns_witness :
  let cs := [Call_AssembleValue; Call_AssembleEntry "u"; Call_Finish;
             Call_AssembleKey; Call_AssembleEntry "i"] in
  isset_u new_assembler = false
  /\ map snd (fst (run cs new_assembler))
     = [Panicked "misuse"; Panicked "todo"; Panicked "misuse";
        Panicked "misuse"; Panicked "misuse"]
  /\ forallb (fun co => implb (is_assembly (fst co)) (panicked (snd co)))
             (fst (run cs new_assembler)) = true.
Proof.
  intros cs. split; [reflexivity | split; [reflexivity |]].
  apply (no_assembly_call_returns cs new_assembler). reflexivity.
Defined.

Lemma run_outside_initial (cs : list Call) (ma : _K2__Assembler) :
  state ma <> maState_initial ->
  state (snd (run cs ma)) <> maState_initial
  /\ forallb (fun co => is_AssignNode (fst co) || panicked (snd co))
             (fst (run cs ma)) = true.
Proof.
  revert ma. induction cs as [| c rest IH]; intros ma Hst.
  - simpl. auto.
  - rewrite run_cons. cbn [fst snd forallb].
    destruct (step_outside_initial c ma Hst) as [Hst' Hp].
    destruct (IH _ Hst') as [Hfin Hall].
    split; [exact Hfin |].
    rewrite Hall, andb_true_r.
    destruct (is_AssignNode c); [reflexivity |]. now apply Hp.
Qed.

(** X9.  Once a K2 assembler has left the initial state it never returns to
    it, and from then on every call other than [AssignNode] panics: after a
    first [AssembleEntry], [AssembleKey] or [Finish] the assembler accepts
    nothing more. *)
Theorem outside_initial_for_good (cs : list Call) (ma : _K2__Assembler) :
  state ma <> maState_initial ->
  state (snd (run cs ma)) <> maState_initial
  /\ forallb (fun co => is_AssignNode (fst co) || panicked (snd co))
             (fst (run cs ma)) = true.
Proof. apply run_outside_initial. Qed.

Lemma outside_initial_for_good_witness :
  let ma := snd (step (Call_AssembleEntry "i") new_assembler) in
  let cs := [Call_Finish; Call_AssembleValue; Call_refused BeginMap;
             Call_AssembleEntry "u"; Call_Finish] in
  state ma <> maState_initial
  /\ state (snd (run cs ma)) = maState_midValue
  /\ forallb (fun co => is_AssignNode (fst co) || panicked (snd co))
             (fst (run cs ma)) = true.
Proof.
  intros ma cs. split; [discriminate | split; [reflexivity |]].
  apply (outside_initial_for_good cs ma). discriminate.
Defined.

Lemma no_Finish_outside_initial (cs : list Call) (ma : _K2__Assembler) :
  state ma <> maState_initial ->
  filter Finish_returned (fst (run cs ma)) = [].
Proof.
  intros Hst. destruct (run_outside_initial cs ma Hst) as [_ Hall].
  induction (fst (run cs ma)) as [| [c o] tr IH]; [reflexivity |].
  cbn [forallb fst snd] in Hall. apply andb_prop in Hall as [Hco Htr].
  cbn [filter]. rewrite (IH Htr).
  destruct c; try reflexivity. destruct o; [discriminate | reflexivity].
Qed.

(** X10.  In any sequence of calls on a K2 assembler, whatever its state at
    the start, [Finish] returns at most once. *)
Theorem Finish_returns_at_most_once (cs : list Call) (ma : _K2__Assembler) :
  (List.length (filter Finish_returned (fst (run cs ma))) <= 1)%nat.
Proof.
  revert ma. induction cs as [| c rest IH]; intros ma.
  - simpl. lia.
  - rewrite run_cons. cbn [fst filter].
    destruct (Finish_returned (c, fst (step c ma))) eqn:F.
    + destruct c; try discriminate.
      destruct (fst (step Call_Finish ma)) as [e |] eqn:E; [| discriminate].
      rewrite no_Finish_outside_initial
        by (now apply (step_Finish_leaves_initial ma e)).
      simpl. lia.
    + apply IH.
Qed.

(** *** Repeated keys *)








End gendemo_machine_facts.

(** ** Copying a node into an assembler *)

Module gendemo_assign_facts.
Import ipld gendemo gendemo_iteration gendemo_machine.

(** X11.  On a K2 assembler in the initial state with a target, [AssignNode]
    of a K2 node followed by [Finish] both return without error and leave a
    finished assembler whose target is a copy of the node; the two calls in
    the other order do the same: [AssignNode] is accepted after [Finish]
    too and overwrites the finished node. *)
Theorem AssignNode_and_Finish_commute (ma : _K2__Assembler) (k v : K2) :
  state ma = maState_initial ->
  w ma = Some k ->
  run [Call_AssignNode (Node_K2 v); Call_Finish] ma
  = ([(Call_AssignNode (Node_K2 v), Returned None); (Call_Finish, Returned None)],
     {| w := Some v; state := maState_finished;
        isset_u := isset_u ma; isset_i := isset_i ma |})
  /\ run [Call_Finish; Call_AssignNode (Node_K2 v)] ma
     = ([(Call_Finish, Returned None); (Call_AssignNode (Node_K2 v), Returned None)],
        {| w := Some v; state := maState_finished;
           isset_u := isset_u ma; isset_i := isset_i ma |}).
Proof.
  destruct ma as [w0 st u i]. cbn [w state isset_u isset_i].
  intros -> ->. split; reflexivity.
Qed.

Lemma AssignNode_and_Finish_commute_witness :
  let ma := {| w := Some {| K2_u := ""; K2_i := "" |};
               state := maState_initial; isset_u := false; isset_i := false |} in
  let v := {| K2_u := "x"; K2_i := "y" |} in
  state ma = maState_initial
  /\ w ma = Some {| K2_u := ""; K2_i := "" |}
  /\ snd (run [Call_AssignNode (Node_K2 v); Call_Finish] ma)
     = snd (run [Call_Finish; Call_AssignNode (Node_K2 v)] ma).
Proof.
  intros ma v. split; [reflexivity | split; [reflexivity |]].
  destruct (AssignNode_and_Finish_commute ma {| K2_u := ""; K2_i := "" |} v
              eq_refl eq_refl) as [H1 H2].
  rewrite H1, H2. reflexivity.
Defined.

(** X12.  On a T2 assembler with a target, [AssignNode] of a T2 node returns
    without error and the target then reads back as that node: the same
    entries in iteration and the same result for every lookup; of two
    assignments the last one stands.  [BeginMap] hands back the assembler
    unchanged, on which [Finish] panics. *)
Theorem T2_AssignNode_reads_back (ta : _T2__Assembler) (k v v' : T2) :
  T2asm_w ta = Some k ->
  fst (_T2__Assembler_AssignNode ta (Node_T2 v)) = Returned None
  /\ (exists n' : T2,
        T2asm_w (snd (_T2__Assembler_AssignNode ta (Node_T2 v))) = Some n'
        /\ fst (calls 4 (T2_MapIterator n')) = T2_entries v
        /\ forall key, T2_LookupString n' key = T2_LookupString v key)
  /\ snd (_T2__Assembler_AssignNode
            (snd (_T2__Assembler_AssignNode ta (Node_T2 v'))) (Node_T2 v))
     = snd (_T2__Assembler_AssignNode ta (Node_T2 v))
  /\ fst (_T2__Assembler_BeginMap ta 0) = ta
  /\ _T2__Assembler_Finish (fst (_T2__Assembler_BeginMap ta 0))
     = (Panicked "soon", ta).
Proof.
  destruct ta as [w0]. cbn [T2asm_w]. intros ->.
  unfold _T2__Assembler_AssignNode. cbn [T2asm_w fst snd].
  repeat split. exists v. repeat split.
Qed.

Lemma T2_AssignNode_reads_back_witness :
  let ta := {| T2asm_w := Some {| T2_a := 0; T2_b := 0; T2_c := 0; T2_d := 0 |} |} in
  let v := {| T2_a := 1; T2_b := 2; T2_c := 3; T2_d := 4 |} in
  T2asm_w ta = Some {| T2_a := 0; T2_b := 0; T2_c := 0; T2_d := 0 |}
  /\ fst (_T2__Assembler_AssignNode ta (Node_T2 v)) = Returned None.
Proof.
  intros ta v. split; [reflexivity |].
  apply (T2_AssignNode_reads_back ta
           {| T2_a := 0; T2_b := 0; T2_c := 0; T2_d := 0 |} v v eq_refl).
Defined.

End gendemo_assign_facts.

(** * Further properties of the ExploreIndex selector *)

Module selector_more_facts.
Import ipld ipld_facts selector.

Section MoreFacts.

Context {error : Type} (fmt_Errorf : string -> error)
        (strconv_NumError : string -> string -> error).
Context {Node : Type} (Node_ReprKind : Node -> ReprKind)
        (Node_TraverseField : Node -> string -> option Node * option error)
        (Node_AsInt : Node -> Z * option error).
Context {OtherSelector : Type}.
Context (indexKey nextSelectorKey : string)
        (ParseSelector : option Node -> Outcome (Selector OtherSelector * option error)).

Local Abbreviation Index := (PathSegment_Index strconv_NumError).
Local Abbreviation Explore :=
  (ExploreIndex_Explore error strconv_NumError Node Node_ReprKind OtherSelector).
Local Abbreviation Interests := (ExploreIndex_Interests OtherSelector).
Local Abbreviation Parse :=
  (ParseExploreIndex error fmt_Errorf Node Node_ReprKind Node_TraverseField
     Node_AsInt OtherSelector indexKey nextSelectorKey ParseSelector).

(** What a parse that returns without error went through. *)
Lemma Parse_returned_inv (n : option Node) (sel : Selector OtherSelector) :
  Parse n = Returned (sel, None) ->
  exists (n0 indexNode : Node) (nextNode : option Node)
         (nxt : Selector OtherSelector) (i : Z),
    n = Some n0
    /\ Node_ReprKind n0 = ReprKind_Map
    /\ Node_TraverseField n0 indexKey = (Some indexNode, None)
    /\ Node_AsInt indexNode = (i, None)
    /\ Node_TraverseField n0 nextSelectorKey = (nextNode, None)
    /\ ParseSelector nextNode = Returned (nxt, None)
    /\ sel = Selector_ExploreIndex (Build_ExploreIndex nxt [PathSegmentInt i]).
Proof.
  unfold ParseExploreIndex.
  destruct n as [n0 |]; [| discriminate].
  destruct (ReprKind_eqb_spec (Node_ReprKind n0) ReprKind_Map) as [Hk | Hk];
    [| discriminate].
  cbn [negb].
  destruct (Node_TraverseField n0 indexKey) as [[indexNode |] [e |]] eqn:Hix;
    try discriminate.
  destruct (Node_AsInt indexNode) as [i [e |]] eqn:Hint; try discriminate.
  destruct (Node_TraverseField n0 nextSelectorKey) as [nx [e |]] eqn:Hnx;
    try discriminate.
  destruct (ParseSelector nx) as [[nxt [e |]] | msg] eqn:Hps; try discriminate.
  intros H. injection H as <-.
  exists n0, indexNode, nx, nxt, i. repeat split; assumption.
Qed.

Lemma Parse_well_formed (n0 indexNode : Node) (nextNode : option Node)
    (nxt : Selector OtherSelector) (i : Z) :
  Node_ReprKind n0 = ReprKind_Map ->
  Node_TraverseField n0 indexKey = (Some indexNode, None) ->
  Node_AsInt indexNode = (i, None) ->
  Node_TraverseField n0 nextSelectorKey = (nextNode, None) ->
  ParseSelector nextNode = Returned (nxt, None) ->
  Parse (Some n0)
  = Returned (Selector_ExploreIndex (Build_ExploreIndex nxt [PathSegmentInt i]),
              None).
Proof.
  intros Hk Hix Hint Hnx Hps. unfold ParseExploreIndex.
  now rewrite Hk, Hix, Hint, Hnx, Hps.
Qed.

(** X13.  ParseExploreIndex returns a selector without error exactly when
    the node is a non-nil map whose index field is present and an integer
    and whose next field is present and parses without error; the selector
    is then the ExploreIndex of that integer and of the parsed selector. *)
Theorem ParseExploreIndex_accepts (n : option Node) (sel : Selector OtherSelector) :
  Parse n = Returned (sel, None)
  <-> exists (n0 indexNode : Node) (nextNode : option Node)
             (nxt : Selector OtherSelector) (i : Z),
        n = Some n0
        /\ Node_ReprKind n0 = ReprKind_Map
        /\ Node_TraverseField n0 indexKey = (Some indexNode, None)
        /\ Node_AsInt indexNode = (i, None)
        /\ Node_TraverseField n0 nextSelectorKey = (nextNode, None)
        /\ ParseSelector nextNode = Returned (nxt, None)
        /\ sel = Selector_ExploreIndex (Build_ExploreIndex nxt [PathSegmentInt i]).
Proof.
  split.
  - apply Parse_returned_inv.
  - intros (n0 & indexNode & nx & nxt & i & -> & Hk & Hix & Hint & Hnx & Hps & ->).
    now apply (Parse_well_formed n0 indexNode nx).
Qed.


(** X15.  The index written in a specification is the index explored: for a
    selector parsed without error from a node whose index field holds the
    integer [i], [Interests] is the one segment [i], and on a list node
    [Explore] with the integer segment [j] returns the selector parsed from
    the next field when [j = i] and nil otherwise. *)
Theorem parsed_index_is_explored (n0 indexNode m : Node) (i j : Z)
    (sel : Selector OtherSelector) :
  Parse (Some n0) = Returned (sel, None) ->
  Node_TraverseField n0 indexKey = (Some indexNode, None) ->
  Node_AsInt indexNode = (i, None) ->
  Node_ReprKind m = ReprKind_List ->
  exists s : ExploreIndex OtherSelector,
    sel = Selector_ExploreIndex s
    /\ Interests s = [PathSegmentInt i]
    /\ (exists nextNode, Node_TraverseField n0 nextSelectorKey = (nextNode, None)
                         /\ ParseSelector nextNode = Returned (next s, None))
    /\ Explore s (Some m) (PathSegmentInt j)
       = Returned (if j =? i then next s else Selector_nil)
    /\ Explore s (Some m) (PathSegmentInt i) = Returned (next s).
Proof.
  intros Hp Hix Hint Hm.
  destruct (Parse_returned_inv _ _ Hp)
    as (n1 & indexNode' & nx & nxt & i' & Hn & _ & Hix' & Hint' & Hnx & Hps & ->).
  injection Hn as <-.
  rewrite Hix in Hix'. injection Hix' as <-.
  rewrite Hint in Hint'. injection Hint' as <-.
  exists (Build_ExploreIndex nxt [PathSegmentInt i]).
  split; [reflexivity | split; [reflexivity | split; [now exists nx |]]].
  unfold ExploreIndex_Explore. rewrite Hm. cbn.
  rewrite Z.eqb_refl. split; [| reflexivity].
  now destruct (j =? i).
Qed.

(** X16.  [Explore] panics on a nil node and, on a list node, when the
    selector's interest list is empty; on a node whose kind is not list it
    returns nil whatever the interest list, the empty one included.  Whenever
    it returns, the result is nil or the held next selector. *)
Theorem Explore_edge_cases (s : ExploreIndex OtherSelector) (n0 : Node)
    (p : PathSegment) :
  Explore s None p = Panicked nil_dereference
  /\ (Node_ReprKind n0 <> ReprKind_List ->
      Explore s (Some n0) p = Returned Selector_nil)
  /\ (Node_ReprKind n0 = ReprKind_List -> interest s = [] ->
      Explore s (Some n0) p = Panicked index_out_of_range)
  /\ (forall (n : option Node) (r : Selector OtherSelector),
        Explore s n p = Returned r -> r = Selector_nil \/ r = next s).
Proof.
  unfold ExploreIndex_Explore. split; [reflexivity | split; [| split]].
  - intros Hk. now rewrite (ReprKind_eqb_neq _ _ Hk).
  - intros Hk Hi. rewrite Hk, Hi. cbn. now destruct (Index p).
  - intros [n1 |] r; [| discriminate].
    destruct (ReprKind_eqb (Node_ReprKind n1) ReprKind_List); cbn [negb].
    + destruct (Index p) as [ei ee].
      destruct (interest s) as [| seg rest]; [discriminate |].
      destruct (Index seg) as [ai ae].
      destruct ee, ae, (ei =? ai); cbn;
        intros H; injection H as <-; auto.
    + intros H. injection H as <-. now left.
Qed.

End MoreFacts.

End selector_more_facts.

Module selector_more_examples.
Import ipld selector selector_sample selector_more_facts.

Lemma parsed_index_is_explored_witness :
  Parse (Some spec_index_2) = Returned (Selector_ExploreIndex at_index_2, None)
  /\ SNode_TraverseField spec_index_2 "index" = (Some (SInt 2), None)
  /\ SNode_AsInt (SInt 2) = (2, None)
  /\ SNode_ReprKind (SList [SInt 7; SInt 8; SInt 9]) = ReprKind_List
  /\ exists s : ExploreIndex unit,
       Selector_ExploreIndex at_index_2 = Selector_ExploreIndex s
       /\ Explore s (Some (SList [SInt 7; SInt 8; SInt 9])) (PathSegmentInt 2)
          = Returned (next s).
Proof.
  repeat (split; [reflexivity |]).
  destruct (parsed_index_is_explored (fun msg => msg) NumError SNode_ReprKind
              SNode_TraverseField SNode_AsInt "index" "next" ParseSelector
              spec_index_2 (SInt 2) (SList [SInt 7; SInt 8; SInt 9]) 2 2
              (Selector_ExploreIndex at_index_2) eq_refl eq_refl eq_refl eq_refl)
    as (s & Hs & _ & _ & _ & He).
  exists s. split; [exact Hs | exact He].
Defined.

End selector_more_examples.
